(** * Draftly AI: the OpenRouter client of [src/lib/ai-utils.ts]

    A shallow embedding of the schema compiler [zodToJsonSchema], of the
    multi-step loop [generateText], of the single-step [generateObject] and
    of the helper [stepCountIs], with the properties the specification
    states about them.

    What the code takes from outside the repository is modelled as follows.
    - JavaScript values are the tree [JsValue]; an object is the list of its
      own properties in insertion order, and inherits the members of
      [Object.prototype].
    - The zod library: what the compiler asks of a node ([isOptional],
      which zod defines as [safeParse(undefined).success]) is modelled by
      [zod_parse] for the node kinds the compiler names, a node of any other
      kind being [ZodOther] with its validator.  The [schema.parse] that
      validates a reply is a field of the [Host], so that what is proved of
      [generateObject] holds for the library as it is; the scripted hosts
      of the examples take the model for it.
    - [JSON.parse], [JSON.stringify], [fetch] and [process.env] are the
      other fields of the [Host], over which every definition is
      parameterised.
    - A response of the endpoint is not 2xx, or carries a message of the
      wire shape of the chat-completion API in [choices[0].message], or
      cannot be read that far ([HttpResponse]). *)

From Stdlib Require Import String Ascii List ZArith Bool Lia.
From Stdlib Require Import QArith_base.
Import ListNotations.
Close Scope Q_scope.
Open Scope string_scope.
Open Scope list_scope.
Open Scope Z_scope.

Set Warnings "-register-all".

(* ================================================================== *)
(** ** JavaScript values *)

(** [JFunction name] is the built-in function that [Object.prototype]
    holds under [name]; no JSON text denotes it. *)
Inductive JsValue : Type :=
| JUndefined
| JNull
| JBool (b : bool)
| JNum (q : Q)
| JStr (s : string)
| JArr (items : list JsValue)
| JObj (entries : list (string * JsValue))
| JFunction (name : string).

(** Own-property read [o[k]] of an object given by its entries. *)
Fixpoint obj_get {A : Type} (o : list (string * A)) (k : string) : option A :=
  match o with
  | [] => None
  | (k', v) :: rest => if String.eqb k' k then Some v else obj_get rest k
  end.

(** The own property [k] of [o] set to [v]: an existing key keeps its
    place, a new key goes last. *)
Fixpoint obj_set {A : Type} (o : list (string * A)) (k : string) (v : A)
  : list (string * A) :=
  match o with
  | [] => [(k, v)]
  | (k', v') :: rest =>
      if String.eqb k' k then (k', v) :: rest else (k', v') :: obj_set rest k v
  end.

(** The assignment [o[k] = v] on an object literal [o].  It sets the own
    property [k], except for the key [__proto__]: that assignment reaches
    the setter [Object.prototype] defines, which changes the prototype of
    [o] when [v] is an object and otherwise does nothing; either way [o]
    gains no own property. *)
Definition obj_assign {A : Type} (o : list (string * A)) (k : string) (v : A)
  : list (string * A) :=
  if String.eqb k "__proto__" then o else obj_set o k v.

(** The properties every object literal inherits from [Object.prototype]:
    functions, and for [__proto__] the prototype itself.  Each is truthy and
    none has an [execute]. *)
Definition Object_prototype_keys : list string :=
  [ "constructor"; "hasOwnProperty"; "isPrototypeOf"; "propertyIsEnumerable";
    "toLocaleString"; "toString"; "valueOf"; "__proto__";
    "__defineGetter__"; "__defineSetter__";
    "__lookupGetter__"; "__lookupSetter__" ].

(** [Object.prototype] as a value: each of its own properties is a function,
    except [__proto__], which reads [null] there. *)
Definition Object_prototype : JsValue :=
  JObj (map (fun key => (key, if String.eqb key "__proto__" then JNull
                              else JFunction key))
            Object_prototype_keys).

(** The read [o[key]] on an object literal or a parsed object [o]: the own
    property, else the member of [Object.prototype] of that name, else
    [undefined]. *)
Definition property_get (o : list (string * JsValue)) (key : string) : JsValue :=
  match obj_get o key with
  | Some x => x
  | None =>
      if String.eqb key "__proto__" then Object_prototype
      else if existsb (String.eqb key) Object_prototype_keys then JFunction key
      else JUndefined
  end.

(** [key in o], which also looks through the prototype chain. *)
Definition has_property (o : list (string * JsValue)) (key : string) : bool :=
  match obj_get o key with
  | Some _ => true
  | None => existsb (String.eqb key) Object_prototype_keys
  end.

(** [object_field v k]: the own property [k] of the object [v], if [v] is
    an object that has it. *)
Definition object_field (v : JsValue) (k : string) : option JsValue :=
  match v with
  | JObj entries => obj_get entries k
  | _ => None
  end.

(** What [JSON.stringify] writes for a value: a property whose value is
    [undefined] or a function is left out of its object, such an array
    element is written [null].  [serialized v] is the value the written text
    denotes, [undefined] when nothing is written. *)
Fixpoint serialized (v : JsValue) : JsValue :=
  match v with
  | JArr items =>
      JArr (map (fun x => match x with
                          | JUndefined | JFunction _ => JNull
                          | _ => serialized x
                          end) items)
  | JObj entries =>
      let fix props (l : list (string * JsValue)) : list (string * JsValue) :=
        match l with
        | [] => []
        | (k, JUndefined) :: rest | (k, JFunction _) :: rest => props rest
        | (k, x) :: rest => (k, serialized x) :: props rest
        end in
      JObj (props entries)
  | JFunction _ => JUndefined
  | _ => v
  end.

(** [x ?? undefined] for an optional string or number. *)
Definition js_string (o : option string) : JsValue :=
  match o with Some s => JStr s | None => JUndefined end.

Definition js_number (o : option Q) : JsValue :=
  match o with Some q => JNum q | None => JUndefined end.

(* ================================================================== *)
(** ** The zod library, as far as the client uses it *)

Inductive PathSeg : Type :=
| PKey (k : string)
| PIndex (i : nat).

Record ZodIssue : Type := mkIssue {
  issue_code : string;
  issue_path : list PathSeg
}.

(** The outcome of [safeParse]. *)
Inductive ParseReturn : Type :=
| ParseOk (value : JsValue)
| ParseFail (issues : list ZodIssue).

(** The schema nodes.  The first seven are the classes [zodToJsonSchema]
    tests with [instanceof], with the parts of [_def] it reads
    ([shape()], [type], [minLength?.value], [maxLength?.value], [values],
    [innerType]) and [description].  They stand for nodes built with
    [z.object], [z.string], [z.number], [z.boolean], [z.array] (with
    [.min] and [.max]), [z.enum], [.optional] and [.describe], without
    coercion or further checks.  The [shape] of an object node lists its
    fields as [Object.entries] enumerates them.  [ZodOther] is a node of any
    other class ([z.any()], [z.unknown()], [.nullable()], [.default(..)],
    ...), given by its validator. *)
Inductive ZodType : Type :=
| ZodObject (shape : list (string * ZodType))
| ZodString (description : option string)
| ZodNumber (description : option string)
| ZodBoolean (description : option string)
| ZodArray (type : ZodType) (minLength maxLength : option Q)
           (description : option string)
| ZodEnum (values : list string) (description : option string)
| ZodOptional (innerType : ZodType)
| ZodOther (validate : JsValue -> ParseReturn).

Definition invalid_type (path : list PathSeg) : ZodIssue :=
  mkIssue "invalid_type" path.

Definition length_issues (n : nat) (minLength maxLength : option Q)
           (path : list PathSeg) : list ZodIssue :=
  let len := inject_Z (Z.of_nat n) in
  (match minLength with
   | Some lo => if Qle_bool lo len then [] else [mkIssue "too_small" path]
   | None => []
   end) ++
  (match maxLength with
   | Some hi => if Qle_bool len hi then [] else [mkIssue "too_big" path]
   | None => []
   end).

Definition finish_parse (issues : list ZodIssue) (value : JsValue)
  : ParseReturn :=
  match issues with
  | [] => ParseOk value
  | _ => ParseFail issues
  end.

(** [schema.safeParse(data)], with [path] the place of [data] in the
    parsed input.  An object schema is in zod's default mode.  For each key
    of the shape it parses [data[key]], a read that also finds what [data]
    inherits; the output object gets the key when the parsed value is not
    [undefined] or [key in data] holds, and never gets the key [__proto__];
    keys the shape does not name are stripped. *)
Fixpoint zod_parse (schema : ZodType) (path : list PathSeg) (data : JsValue)
  : ParseReturn :=
  match schema with
  | ZodObject shape =>
      match data with
      | JObj entries =>
          let fix fields (l : list (string * ZodType))
            : list ZodIssue * list (string * JsValue) :=
            match l with
            | [] => ([], [])
            | (key, value) :: rest =>
                let '(issues, out) := fields rest in
                match zod_parse value (path ++ [PKey key])
                                (property_get entries key) with
                | ParseOk v =>
                    if String.eqb key "__proto__" then (issues, out)
                    else
                      match v with
                      | JUndefined =>
                          if has_property entries key
                          then (issues, (key, JUndefined) :: out)
                          else (issues, out)
                      | _ => (issues, (key, v) :: out)
                      end
                | ParseFail bad => (bad ++ issues, out)
                end
            end in
          let '(issues, out) := fields shape in
          finish_parse issues (JObj out)
      | _ => ParseFail [invalid_type path]
      end
  | ZodString _ =>
      match data with
      | JStr _ => ParseOk data
      | _ => ParseFail [invalid_type path]
      end
  | ZodNumber _ =>
      match data with
      | JNum _ => ParseOk data
      | _ => ParseFail [invalid_type path]
      end
  | ZodBoolean _ =>
      match data with
      | JBool _ => ParseOk data
      | _ => ParseFail [invalid_type path]
      end
  | ZodArray type minLength maxLength _ =>
      match data with
      | JArr items =>
          let fix elements (i : nat) (l : list JsValue)
            : list ZodIssue * list JsValue :=
            match l with
            | [] => ([], [])
            | item :: rest =>
                let '(issues, out) := elements (S i) rest in
                match zod_parse type (path ++ [PIndex i]) item with
                | ParseOk v => (issues, v :: out)
                | ParseFail bad => (bad ++ issues, out)
                end
            end in
          let '(issues, out) := elements O items in
          finish_parse
            (length_issues (length items) minLength maxLength path ++ issues)
            (JArr out)
      | _ => ParseFail [invalid_type path]
      end
  | ZodEnum values _ =>
      match data with
      | JStr s =>
          if existsb (String.eqb s) values then ParseOk data
          else ParseFail [mkIssue "invalid_enum_value" path]
      | _ => ParseFail [invalid_type path]
      end
  | ZodOptional innerType =>
      match data with
      | JUndefined => ParseOk JUndefined
      | _ => zod_parse innerType path data
      end
  | ZodOther validate => validate data
  end.

(** [schema.isOptional()]: zod answers [this.safeParse(undefined).success]. *)
Definition isOptional (schema : ZodType) : bool :=
  match zod_parse schema [] JUndefined with
  | ParseOk _ => true
  | ParseFail _ => false
  end.

(** [z.any()], a node the compiler does not name: it accepts every input. *)
Definition z_any : ZodType := ZodOther (fun data => ParseOk data).

(* ================================================================== *)
(** ** The schema compiler *)

(** [zodToJsonSchema]: the returned object literal with its keys in the
    order written, a key whose expression is [undefined] included.  The
    shape of an object node is the list [Object.entries(shape)]. *)
Fixpoint zodToJsonSchema (schema : ZodType) : JsValue :=
  match schema with
  | ZodObject shape =>
      let fix entries (l : list (string * ZodType))
              (properties : list (string * JsValue)) (required : list string)
        : list (string * JsValue) * list string :=
        match l with
        | [] => (properties, required)
        | (key, value) :: rest =>
            entries rest
              (obj_assign properties key (zodToJsonSchema value))
              (if negb (isOptional value) then required ++ [key]
               else required)
        end in
      let '(properties, required) := entries shape [] [] in
      JObj [ ("type", JStr "object");
             ("properties", JObj properties);
             ("required",
               if (0 <? Z.of_nat (length required))
               then JArr (map JStr required) else JUndefined);
             ("additionalProperties", JBool false) ]
  | ZodString description =>
      JObj [ ("type", JStr "string");
             ("description", js_string description) ]
  | ZodNumber description =>
      JObj [ ("type", JStr "number");
             ("description", js_string description) ]
  | ZodBoolean description =>
      JObj [ ("type", JStr "boolean");
             ("description", js_string description) ]
  | ZodArray type minLength maxLength description =>
      JObj [ ("type", JStr "array");
             ("items", zodToJsonSchema type);
             ("description", js_string description);
             ("minItems", js_number minLength);
             ("maxItems", js_number maxLength) ]
  | ZodEnum values description =>
      JObj [ ("type", JStr "string");
             ("enum", JArr (map JStr values));
             ("description", js_string description) ]
  | ZodOptional innerType => zodToJsonSchema innerType
  | ZodOther _ => JObj [ ("type", JStr "string") ]
  end.

(* ================================================================== *)
(** ** Messages, requests and the host *)

Inductive Role : Type := system | user | assistant | tool.

Definition Role_eqb (a b : Role) : bool :=
  match a, b with
  | system, system | user, user | assistant, assistant | tool, tool => true
  | _, _ => false
  end.

(** The [content] of a message: a string, or [null] (a reply that only
    requests tools), or [undefined] ([JSON.stringify] of a tool result that
    has no JSON text). *)
Inductive Content : Type :=
| Text (s : string)
| Null
| Undefined.

(** [String(content)], the coercion [JSON.parse] applies to its argument. *)
Definition ToString (c : Content) : string :=
  match c with
  | Text s => s
  | Null => "null"
  | Undefined => "undefined"
  end.

(** [{id, function: {name, arguments}}] *)
Record ToolCall : Type := mkToolCall {
  call_id : string;
  call_name : string;
  call_arguments : string
}.

Record Message : Type := mkMessage {
  role : Role;
  content : Content;
  tool_call_id : option string;
  name : option string;
  tool_calls : option (list ToolCall)
}.

(** An entry of the tool manifest, [{type: "function", function: {name,
    description, parameters}}]. *)
Record Tool : Type := mkTool {
  function_name : string;
  function_description : string;
  function_parameters : JsValue
}.

(** A request to the endpoint: the two headers read from [process.env] and
    the body before [JSON.stringify].  The URL, the method and the other
    two headers are constants. *)
Record Request : Type := mkRequest {
  Authorization : string;
  HTTP_Referer : string;
  body_model : string;
  body_messages : list Message;
  body_max_tokens : Q;
  body_temperature : Q;
  body_tools : option (list Tool);
  body_response_format : option string
}.

(** What the program does to the outside, in order. *)
Inductive Event : Type :=
| EvFetch (request : Request)
| EvExecute (toolName : string) (toolArgs : JsValue).

Definition Log : Type := list Event.

Definition is_fetch (e : Event) : bool :=
  match e with EvFetch _ => true | EvExecute _ _ => false end.

(** The number of HTTP round trips in a log. *)
Definition round_trips (log : Log) : nat := length (filter is_fetch log).

(** What a call can throw.  In the specification's words: [Error] with the
    endpoint's body is TransportError, [SyntaxError] from [JSON.parse] is
    MalformedToolArgs in [generateText] and MalformedResponse in
    [generateObject], [ZodError] is SchemaValidationError. *)
Inductive JsError : Type :=
| Error (message : string)
| SyntaxError
| TypeError (message : string)
| ZodError (issues : list ZodIssue)
| Rejected (reason : JsValue).

(** How an awaited call ends. *)
Inductive Completion (A : Type) : Type :=
| Return (a : A)
| Throw (e : JsError).

Arguments Return {A} a.
Arguments Throw {A} e.

(** A response as the client reads it.  [NotOk text]: [response.ok] is
    false and [response.text()] is the body.  [Ok message]: [response.ok]
    holds and [(await response.json()).choices[0].message] is the reply.
    [Unreadable e]: the response arrived and reading it throws [e], because
    [response.text()] or [response.json()] rejects, or because the body has
    no [choices[0].message], so that [data.choices[0]], [choice.message] or
    the first use of the message throws a [TypeError]. *)
Inductive HttpResponse : Type :=
| NotOk (text : string)
| Ok (message : Message)
| Unreadable (e : JsError).

(** A caller's tool, as [createTool] returns it.  [execute] may depend on
    everything done so far. *)
Record ToolDefinition : Type := mkToolDefinition {
  description : string;
  inputSchema : ZodType;
  execute : Log -> JsValue -> Completion JsValue
}.

(** [createTool]: the three fields of its argument, unchanged. *)
Definition createTool (config : ToolDefinition) : ToolDefinition :=
  {| description := description config;
     inputSchema := inputSchema config;
     execute := execute config |}.

(** [schema.parse(data)] as zod defines it from [safeParse]: the parsed
    value, or the [ZodError] that carries the issues, thrown. *)
Definition zod_parse_or_throw (schema : ZodType) (data : JsValue)
  : Completion JsValue :=
  match zod_parse schema [] data with
  | ParseOk value => Return value
  | ParseFail issues => Throw (ZodError issues)
  end.

(** The runtime, the libraries and the world outside.  [JSON_parse] is
    [None] where [JSON.parse] throws; [JSON_stringify indent v] is [None]
    where [JSON.stringify] returns [undefined]; [fetch log request] is how
    the promise of [fetch] settles for [request] after the calls in [log]:
    with the endpoint's response, or rejected when the call itself fails;
    [schema_parse schema data] is how [schema.parse(data)] of the zod
    library in use ends: with the validated value, or with what it throws,
    a [ZodError] when [data] does not match. *)
Record Host : Type := mkHost {
  JSON_parse : string -> option JsValue;
  JSON_stringify : nat -> JsValue -> option string;
  fetch : Log -> Request -> Completion HttpResponse;
  schema_parse : ZodType -> JsValue -> Completion JsValue;
  OPENROUTER_API_KEY : option string;
  NEXT_PUBLIC_APP_URL : option string
}.

Record GenerateTextOptions : Type := mkGenerateTextOptions {
  model : string;
  system_prompt : option string;
  prompt : string;
  tools : option (list (string * ToolDefinition));
  stopWhen : option (Z -> bool);
  maxTokens : option Q;
  temperature : option Q
}.

Record GenerateObjectOptions : Type := mkGenerateObjectOptions {
  object_model : string;
  object_system : option string;
  object_prompt : string;
  schema : ZodType;
  object_maxTokens : option Q;
  object_temperature : option Q
}.

(* ================================================================== *)
(** ** A monad for calls that log what they do and may throw *)

Definition M (A : Type) : Type := Log -> Completion A * Log.

Definition ret {A : Type} (a : A) : M A := fun log => (Return a, log).

Definition throw {A : Type} (e : JsError) : M A := fun log => (Throw e, log).

Definition bind {A B : Type} (m : M A) (k : A -> M B) : M B :=
  fun log =>
    match m log with
    | (Return a, log') => k a log'
    | (Throw e, log') => (Throw e, log')
    end.

Notation "x <- m ;; k" := (bind m (fun x => k))
  (at level 61, m at next level, right associativity).

(** [await fetch(url, request)] *)
Definition await_fetch (host : Host) (request : Request) : M HttpResponse :=
  fun log => (fetch host log request, log ++ [EvFetch request]).

(** [await tool.execute(toolArgs)] *)
Definition await_execute (toolName : string) (tool : ToolDefinition)
           (toolArgs : JsValue) : M JsValue :=
  fun log => (execute tool log toolArgs, log ++ [EvExecute toolName toolArgs]).

(* ================================================================== *)
(** ** The completion client *)

(** The value of [tools?.[toolName]]: an own property of [tools] (a tool),
    a value inherited from [Object.prototype] (truthy, and without an
    [execute]), or [undefined]. *)
Inductive Lookup : Type :=
| OwnTool (tool : ToolDefinition)
| InheritedValue
| NotFound.

Definition tools_get (tools : option (list (string * ToolDefinition)))
           (toolName : string) : Lookup :=
  match tools with
  | None => NotFound
  | Some own =>
      match obj_get own toolName with
      | Some toolDef => OwnTool toolDef
      | None =>
          if existsb (String.eqb toolName) Object_prototype_keys
          then InheritedValue else NotFound
      end
  end.

(** A tool is registered when it is an own property of [tools]: these are
    the tools the manifest announces to the model. *)
Definition registered (tools : option (list (string * ToolDefinition)))
           (toolName : string) : bool :=
  match tools with
  | Some own => match obj_get own toolName with Some _ => true | None => false end
  | None => false
  end.

Definition system_message (text : string) : Message :=
  mkMessage system (Text text) None None None.

Definition user_message (text : string) : Message :=
  mkMessage user (Text text) None None None.

Definition tool_message (toolCall : ToolCall) (text : option string)
  : Message :=
  mkMessage tool
            (match text with Some s => Text s | None => Undefined end)
            (Some (call_id toolCall)) (Some (call_name toolCall)) None.

(** [if (system) messages.push(..)]: an absent or empty [system] adds
    nothing. *)
Definition system_messages (system_text : option string) : list Message :=
  match system_text with
  | Some "" => []
  | Some text => [system_message text]
  | None => []
  end.

(** The manifest built from [Object.entries(tools)]. *)
Definition toolsArray_of (tools : option (list (string * ToolDefinition)))
  : list Tool :=
  match tools with
  | Some own =>
      map (fun entry : string * ToolDefinition =>
             let (toolName, toolDef) := entry in
             mkTool toolName (description toolDef)
                    (zodToJsonSchema (inputSchema toolDef)))
          own
  | None => []
  end.

Definition Bearer (host : Host) : string :=
  String.append "Bearer "
    (match OPENROUTER_API_KEY host with Some key => key | None => "undefined" end).

Definition Referer (host : Host) : string :=
  match NEXT_PUBLIC_APP_URL host with
  | Some "" => "http://localhost:3000"
  | Some url => url
  | None => "http://localhost:3000"
  end.

Definition default (o : option Q) (d : Q) : Q :=
  match o with Some q => q | None => d end.

Definition default_maxTokens : Q := inject_Z 4000.
Definition default_temperature : Q := Qmake 7 10.

Section Client.

Variable host : Host.

Section GenerateText.

Variable options : GenerateTextOptions.

Definition text_request (messages : list Message) : Request :=
  let toolsArray := toolsArray_of (tools options) in
  {| Authorization := Bearer host;
     HTTP_Referer := Referer host;
     body_model := model options;
     body_messages := messages;
     body_max_tokens := default (maxTokens options) default_maxTokens;
     body_temperature := default (temperature options) default_temperature;
     body_tools := match toolsArray with
                   | [] => None
                   | _ => Some toolsArray
                   end;
     body_response_format := None |}.

(** One pass of [for (const toolCall of assistantMessage.tool_calls)]. *)
Definition run_tool_call (messages : list Message) (toolCall : ToolCall)
  : M (list Message) :=
  let toolName := call_name toolCall in
  match JSON_parse host (call_arguments toolCall) with
  | None => throw SyntaxError
  | Some toolArgs =>
      match tools_get (tools options) toolName with
      | NotFound => ret messages
      | InheritedValue => throw (TypeError "tool.execute is not a function")
      | OwnTool toolDef =>
          result <- await_execute toolName toolDef toolArgs ;;
          ret (messages ++ [tool_message toolCall (JSON_stringify host 0 result)])
      end
  end.

Fixpoint run_tool_calls (messages : list Message) (calls : list ToolCall)
  : M (list Message) :=
  match calls with
  | [] => ret messages
  | toolCall :: rest =>
      messages' <- run_tool_call messages toolCall ;;
      run_tool_calls messages' rest
  end.

(** [options.stopWhen && options.stopWhen(stepCount)] *)
Definition stop_requested (stepCount : Z) : bool :=
  match stopWhen options with
  | Some predicate => predicate stepCount
  | None => false
  end.

(** The body of [while (!shouldStop)]: from [messages] and [stepCount]
    to their new values and the new [shouldStop]. *)
Definition iteration (messages : list Message) (stepCount : Z)
  : M (list Message * Z * bool) :=
  response <- await_fetch host (text_request messages) ;;
  match response with
  | NotOk error => throw (Error (String.append "OpenRouter API error: " error))
  | Unreadable e => throw e
  | Ok assistantMessage =>
      let messages := messages ++ [assistantMessage] in
      let stepCount := stepCount + 1 in
      turn <- match tool_calls assistantMessage with
              | Some ((_ :: _) as calls) =>
                  messages' <- run_tool_calls messages calls ;;
                  ret (messages', stop_requested stepCount)
              | _ => ret (messages, true)
              end ;;
      let '(messages, shouldStop) := turn in
      ret (messages, stepCount, if 10 <=? stepCount then true else shouldStop)
  end.

(** The loop, [fuel] bounding the passes the model follows; [None] when
    the bound is reached before [shouldStop] holds.  It ends with the
    values [messages] and [stepCount] have when control leaves it. *)
Fixpoint loop (fuel : nat) (messages : list Message) (stepCount : Z)
         (log : Log) : option (Completion (list Message * Z) * Log) :=
  match fuel with
  | O => None
  | S fuel' =>
      match iteration messages stepCount log with
      | (Throw e, log') => Some (Throw e, log')
      | (Return (messages', stepCount', shouldStop), log') =>
          if shouldStop then Some (Return (messages', stepCount'), log')
          else loop fuel' messages' stepCount' log'
      end
  end.

Definition initial_messages : list Message :=
  system_messages (system_prompt options) ++ [user_message (prompt options)].

(** The transcript and the step count when the loop ends. *)
Definition transcript (fuel : nat)
  : option (Completion (list Message * Z) * Log) :=
  loop fuel initial_messages 0 [].

(** [messages[messages.length - 1]], then the [text] of the result. *)
Definition final_text (messages : list Message) : Completion Content :=
  match nth_error messages (length messages - 1) with
  | Some lastMessage =>
      Return (if Role_eqb (role lastMessage) assistant
              then content lastMessage else Text "")
  | None => Throw (TypeError "lastMessage is undefined")
  end.

(** [generateText(options)]: how the call ends, [{text}] being given by
    its [text], and what it did. *)
Definition generateText (fuel : nat) : option (Completion Content * Log) :=
  match transcript fuel with
  | Some (Return (messages, _), log) => Some (final_text messages, log)
  | Some (Throw e, log) => Some (Throw e, log)
  | None => None
  end.

End GenerateText.

Section GenerateObject.

Variable options : GenerateObjectOptions.

Definition newline : string := String (ascii_of_nat 10) "".

(** The template literal of the user message. *)
Definition object_instruction : string :=
  String.append (object_prompt options)
    (String.append newline (String.append newline
      (String.append "You must respond with valid JSON matching this schema:"
        (String.append newline
           (match JSON_stringify host 2 (zodToJsonSchema (schema options)) with
            | Some text => text
            | None => "undefined"
            end))))).

Definition object_request : Request :=
  {| Authorization := Bearer host;
     HTTP_Referer := Referer host;
     body_model := object_model options;
     body_messages := system_messages (object_system options)
                      ++ [user_message object_instruction];
     body_max_tokens := default (object_maxTokens options) default_maxTokens;
     body_temperature := default (object_temperature options) default_temperature;
     body_tools := None;
     body_response_format := Some "json_object" |}.

(** [generateObject(options)]: how the call ends, [{object}] being given
    by its [object], and what it did. *)
Definition generateObject : Completion JsValue * Log :=
  (response <- await_fetch host object_request ;;
   match response with
   | NotOk error => throw (Error (String.append "OpenRouter API error: " error))
   | Unreadable e => throw e
   | Ok message =>
       match JSON_parse host (ToString (content message)) with
       | None => throw SyntaxError
       | Some parsed =>
           match schema_parse host (schema options) parsed with
           | Throw e => throw e
           | Return validated => ret validated
           end
       end
   end) [].

End GenerateObject.

End Client.

(** [stepCountIs(count)]: the returned closure. *)
Definition stepCountIs (count : Z) : Z -> bool :=
  fun currentCount => currentCount >=? count.

(* ================================================================== *)
(** ** The caller: [generateProjectName] *)

Definition project_name_model : string := "google/gemini-1.5-flash-latest".

(** The template literal passed as [system], line breaks and indentation
    included. *)
Definition project_name_system : string :=
  String.concat newline
    [ "";
      "        You are an AI assistant that generates very very short project names based on the user's prompt.";
      "        - Keep it under 5 words.";
      "        - Capitalize words appropriately.";
      "        - Do not include special characters.";
      "      " ].

Definition project_name_options (prompt : string) : GenerateTextOptions :=
  {| model := project_name_model;
     system_prompt := Some project_name_system;
     prompt := prompt;
     tools := None;
     stopWhen := None;
     maxTokens := None;
     temperature := None |}.

Definition Untitled_Project : string := "Untitled Project".

Section ProjectName.

Variable host : Host.

(** [String.prototype.trim] *)
Variable trim : string -> string.

(** [text?.trim() || "Untitled Project"] *)
Definition trimmed_or_untitled (text : Content) : string :=
  match text with
  | Text s =>
      match trim s with
      | "" => Untitled_Project
      | trimmed => trimmed
      end
  | Null | Undefined => Untitled_Project
  end.

(** [generateProjectName(prompt)]: the returned name and what the call
    did.  The [catch] turns every error into the default name (after
    [console.log], which is not modelled). *)
Definition generateProjectName (fuel : nat) (prompt : string)
  : option (string * Log) :=
  match generateText host (project_name_options prompt) fuel with
  | Some (Return text, log) => Some (trimmed_or_untitled text, log)
  | Some (Throw _, log) => Some (Untitled_Project, log)
  | None => None
  end.

End ProjectName.

(* ================================================================== *)
(** ** Scripted hosts for the examples *)

Definition quote : string := String (ascii_of_nat 34) "".

(** The texts [{"name":"X"}], [{"name":5}] and [{"name":"X","extra":1}]. *)
Definition name_X_text : string :=
  String.concat "" ["{"; quote; "name"; quote; ":"; quote; "X"; quote; "}"].

Definition name_X_extra_text : string :=
  String.concat "" ["{"; quote; "name"; quote; ":"; quote; "X"; quote; ",";
                    quote; "extra"; quote; ":1}"].

Definition name_5_text : string :=
  String.concat "" ["{"; quote; "name"; quote; ":5}"].

(** [JSON.parse] on the texts the examples use; any other text the
    examples pass to it is not JSON. *)
Definition example_JSON_parse (text : string) : option JsValue :=
  if String.eqb text "{}" then Some (JObj [])
  else if String.eqb text name_X_text then Some (JObj [("name", JStr "X")])
  else if String.eqb text name_5_text then Some (JObj [("name", JNum (inject_Z 5))])
  else if String.eqb text name_X_extra_text
       then Some (JObj [("name", JStr "X"); ("extra", JNum (inject_Z 1))])
  else None.

(** A host whose endpoint answers from a script that reads only the log,
    not what is sent to it.  Its [JSON_stringify] writes [{}], the text of
    the empty object the example tool returns; its [schema.parse] is the
    model of zod. *)
Definition scripted_host (reply : Log -> Completion HttpResponse) : Host :=
  {| JSON_parse := example_JSON_parse;
     JSON_stringify := fun _ _ => Some "{}";
     fetch := fun log _ => reply log;
     schema_parse := zod_parse_or_throw;
     OPENROUTER_API_KEY := Some "sk-or-example";
     NEXT_PUBLIC_APP_URL := None |}.

Definition assistant_text (text : string) : Message :=
  mkMessage assistant (Text text) None None None.

(** A reply that only requests the tool [toolName] with [arguments]. *)
Definition assistant_call (toolName arguments : string) : Message :=
  mkMessage assistant Null None None
            (Some [mkToolCall "call_1" toolName arguments]).


(** An endpoint that gives the same reply to every request. *)
Definition always_replies (message : Message) : Host :=
  scripted_host (fun _ => Return (Ok message)).

(** An endpoint that requests the tool [toolName] on every reply. *)
Definition always_calls (toolName arguments : string) : Host :=
  scripted_host (fun _ => Return (Ok (assistant_call toolName arguments))).

(** An endpoint that requests [toolName] once and then answers in text. *)
Definition calls_once (toolName arguments : string) : Host :=
  scripted_host (fun log =>
    match log with
    | [] => Return (Ok (assistant_call toolName arguments))
    | _ => Return (Ok (assistant_text "done"))
    end).

Definition search_tool : ToolDefinition :=
  createTool {| description := "Search the web";
                inputSchema := ZodObject [("query", ZodOptional (ZodString None))];
                execute := fun _ _ => Return (JObj []) |}.

Definition example_options (stop : option (Z -> bool)) : GenerateTextOptions :=
  {| model := "google/gemini-1.5-flash-latest";
     system_prompt := Some "You are a helpful assistant.";
     prompt := "Find it.";
     tools := Some [("search", search_tool)];
     stopWhen := stop;
     maxTokens := None;
     temperature := None |}.

(** A tool whose [execute] always rejects, and options that register it
    as [search]. *)
Definition broken_tool : ToolDefinition :=
  createTool {| description := "Search the web";
                inputSchema := ZodObject [];
                execute := fun _ _ => Throw (Error "index offline") |}.

Definition broken_options : GenerateTextOptions :=
  {| model := "google/gemini-1.5-flash-latest";
     system_prompt := None;
     prompt := "Find it.";
     tools := Some [("search", broken_tool)];
     stopWhen := None;
     maxTokens := None;
     temperature := None |}.

(** The same options with [stopWhen = stepCountIs(2)]. *)
Definition broken_options_two_steps : GenerateTextOptions :=
  {| model := "google/gemini-1.5-flash-latest";
     system_prompt := None;
     prompt := "Find it.";
     tools := Some [("search", broken_tool)];
     stopWhen := Some (stepCountIs 2);
     maxTokens := None;
     temperature := None |}.

Definition name_schema : ZodType := ZodObject [("name", ZodString None)].

Definition example_object_options : GenerateObjectOptions :=
  {| object_model := "google/gemini-1.5-flash-latest";
     object_system := None;
     object_prompt := "Name the project.";
     schema := name_schema;
     object_maxTokens := None;
     object_temperature := None |}.

(** The shape [{profile: {tags: [{label}]}, note?}] used to exercise the
    statements below. *)
Definition nested_shape : list (string * ZodType) :=
  [ ("profile",
      ZodObject
        [ ("tags",
            ZodArray (ZodObject [("label", ZodString None)]) None None None) ]);
    ("note", ZodOptional (ZodString (Some "free text"))) ].

(* ================================================================== *)
(** ** Vocabulary of the properties *)

(** The loop over [Object.entries(shape)] of [zodToJsonSchema], on its own:
    the [properties] and [required] it ends with. *)
Fixpoint object_entries (l : list (string * ZodType))
         (properties : list (string * JsValue)) (required : list string)
  : list (string * JsValue) * list string :=
  match l with
  | [] => (properties, required)
  | (key, value) :: rest =>
      object_entries rest
        (obj_assign properties key (zodToJsonSchema value))
        (if negb (isOptional value) then required ++ [key] else required)
  end.

(** The field names a compiled document lists under [required]. *)
Definition required_of (doc : JsValue) : list string :=
  match object_field doc "required" with
  | Some (JArr names) =>
      flat_map (fun v => match v with JStr s => [s] | _ => [] end) names
  | _ => []
  end.

(** [schema instanceof z.ZodOptional] *)
Definition is_ZodOptional (schema : ZodType) : bool :=
  match schema with ZodOptional _ => true | _ => false end.

(** The node kinds the compiler names, other than Optional. *)
Definition is_plain (schema : ZodType) : bool :=
  match schema with
  | ZodOptional _ | ZodOther _ => false
  | _ => true
  end.

(** An object is declared an object schema by [type: "object"]. *)
Definition declares_object (entries : list (string * JsValue)) : bool :=
  match obj_get entries "type" with
  | Some (JStr "object") => true
  | _ => false
  end.

Definition closed_object (entries : list (string * JsValue)) : bool :=
  match obj_get entries "additionalProperties" with
  | Some (JBool false) => true
  | _ => false
  end.

(** [strict doc]: every object anywhere inside [doc], at any depth, that
    declares [type: "object"] carries [additionalProperties: false]. *)
Fixpoint strict (doc : JsValue) : bool :=
  match doc with
  | JObj entries =>
      (if declares_object entries then closed_object entries else true)
      && (fix values (l : list (string * JsValue)) : bool :=
            match l with
            | [] => true
            | (_, v) :: rest => strict v && values rest
            end) entries
  | JArr items =>
      (fix elements (l : list JsValue) : bool :=
         match l with
         | [] => true
         | v :: rest => strict v && elements rest
         end) items
  | _ => true
  end.

(** The fields that are pushed to [required], in order. *)
Definition required_fields (shape : list (string * ZodType)) : list string :=
  map fst (filter (fun entry => negb (isOptional (snd entry))) shape).

(** What the proof of strictness carries along: the document is strict and
    is an object. *)
Definition strict_object (doc : JsValue) : Prop :=
  strict doc = true /\ exists entries, doc = JObj entries.

(** [inside v doc]: the value [v] occurs in [doc], at any depth. *)
Inductive inside (v : JsValue) : JsValue -> Prop :=
| inside_here : inside v v
| inside_property :
    forall k x entries, In (k, x) entries -> inside v x -> inside v (JObj entries)
| inside_element :
    forall x items, In x items -> inside v x -> inside v (JArr items).

(** No HTTP round trip among the events [execs]. *)
Definition quiet (execs : Log) : Prop :=
  Forall (fun e => is_fetch e = false) execs.

Definition tool_role (message : Message) : Prop := role message = tool.

(** A tool call that [generateText] processes without throwing: its
    arguments are JSON, and its name is either unknown to [tools] or an own
    property of [tools] whose [execute] resolves. *)
Definition runs_ok (host : Host) (options : GenerateTextOptions)
           (toolCall : ToolCall) : Prop :=
  (exists toolArgs, JSON_parse host (call_arguments toolCall) = Some toolArgs)
  /\ match tools_get (tools options) (call_name toolCall) with
     | NotFound => True
     | InheritedValue => False
     | OwnTool toolDef =>
         forall log toolArgs, exists result,
           execute toolDef log toolArgs = Return result
     end.

(** An endpoint that returns tool calls on every reply, each of them one
    that runs. *)
Definition requests_tools_forever (host : Host) (options : GenerateTextOptions)
  : Prop :=
  forall log request,
  exists message toolCall calls,
    fetch host log request = Return (Ok message)
    /\ tool_calls message = Some (toolCall :: calls)
    /\ Forall (runs_ok host options) (toolCall :: calls).

(** The transcript at the head of a pass of the loop: the initial messages
    and one message for each event logged so far. *)
Definition in_step (options : GenerateTextOptions) (messages : list Message)
           (stepCount : Z) (log : Log) : Prop :=
  exists added,
    messages = initial_messages options ++ added /\ length added = length log.

(** What processing the tool call [call] logs: the execution of the tool
    it names, when its arguments are JSON and the name is an own property
    of [tools]; nothing otherwise. *)
Definition execution_of (host : Host) (options : GenerateTextOptions)
           (call : ToolCall) : Log :=
  match JSON_parse host (call_arguments call),
        tools_get (tools options) (call_name call) with
  | Some toolArgs, OwnTool _ => [EvExecute (call_name call) toolArgs]
  | _, _ => []
  end.

(** The executions of the calls of a reply, in the order of the calls. *)
Definition executions_of (host : Host) (options : GenerateTextOptions)
           (calls : list ToolCall) : Log :=
  flat_map (execution_of host options) calls.

(** [recorded host options pre events added]: [added] holds, in order, the
    messages that the events [events], logged after [pre], leave in the
    transcript: for a request, the message the endpoint replied with; for
    an execution, the tool message that carries the tool's name, the id of
    a call and the [JSON.stringify] of what the tool resolved with. *)
Inductive recorded (host : Host) (options : GenerateTextOptions)
  : Log -> Log -> list Message -> Prop :=
| recorded_nil : forall pre, recorded host options pre [] []
| recorded_fetch :
    forall pre request events reply added,
      fetch host pre request = Return (Ok reply) ->
      recorded host options (pre ++ [EvFetch request]) events added ->
      recorded host options pre (EvFetch request :: events) (reply :: added)
| recorded_execute :
    forall pre toolName toolArgs events toolDef result id added,
      tools_get (tools options) toolName = OwnTool toolDef ->
      execute toolDef pre toolArgs = Return result ->
      recorded host options (pre ++ [EvExecute toolName toolArgs]) events added ->
      recorded host options pre (EvExecute toolName toolArgs :: events)
        ({| role := tool;
            content := match JSON_stringify host 0 result with
                       | Some text => Text text
                       | None => Undefined
                       end;
            tool_call_id := Some id;
            name := Some toolName;
            tool_calls := None |} :: added).

(** The number of tool executions in a log. *)
Definition executions (log : Log) : nat :=
  length (filter (fun e => negb (is_fetch e)) log).

(** The type names a compiled document can carry. *)
Definition type_names : list string :=
  [ "object"; "string"; "number"; "boolean"; "array" ].

(** A request that announces no tools and goes to the model of
    [generateProjectName]. *)
Definition plain_project_request (e : Event) : Prop :=
  exists request,
    e = EvFetch request
    /\ body_tools request = None
    /\ body_model request = project_name_model.

(** A [trim] for the examples: it removes leading spaces only, which is
    what [String.prototype.trim] does on the texts the examples use. *)
Fixpoint example_trim (s : string) : string :=
  match s with
  | String " " rest => example_trim rest
  | _ => s
  end.

(* ================================================================== *)
(** ** The schema compiler: proofs *)

Section ZodType_induction.

Variable P : ZodType -> Prop.

Hypothesis P_object :
  forall shape, Forall (fun entry => P (snd entry)) shape -> P (ZodObject shape).
Hypothesis P_string : forall d, P (ZodString d).
Hypothesis P_number : forall d, P (ZodNumber d).
Hypothesis P_boolean : forall d, P (ZodBoolean d).
Hypothesis P_array :
  forall element lo hi d, P element -> P (ZodArray element lo hi d).
Hypothesis P_enum : forall values d, P (ZodEnum values d).
Hypothesis P_optional : forall inner, P inner -> P (ZodOptional inner).
Hypothesis P_other : forall validate, P (ZodOther validate).

Fixpoint ZodType_nested_ind (schema : ZodType) : P schema :=
  match schema with
  | ZodObject shape =>
      P_object shape
        ((fix each (l : list (string * ZodType))
            : Forall (fun entry => P (snd entry)) l :=
            match l with
            | [] => Forall_nil _
            | entry :: rest =>
                Forall_cons entry (ZodType_nested_ind (snd entry)) (each rest)
            end) shape)
  | ZodString d => P_string d
  | ZodNumber d => P_number d
  | ZodBoolean d => P_boolean d
  | ZodArray element lo hi d =>
      P_array element lo hi d (ZodType_nested_ind element)
  | ZodEnum values d => P_enum values d
  | ZodOptional inner => P_optional inner (ZodType_nested_ind inner)
  | ZodOther validate => P_other validate
  end.

End ZodType_induction.

Lemma zodToJsonSchema_object (shape : list (string * ZodType)) :
  zodToJsonSchema (ZodObject shape) =
  JObj [ ("type", JStr "object");
         ("properties", JObj (fst (object_entries shape [] [])));
         ("required",
           match snd (object_entries shape [] []) with
           | [] => JUndefined
           | names => JArr (map JStr names)
           end);
         ("additionalProperties", JBool false) ].
Proof.
  change (zodToJsonSchema (ZodObject shape)) with
    (let '(properties, required) := object_entries shape [] [] in
     JObj [ ("type", JStr "object");
            ("properties", JObj properties);
            ("required",
              if (0 <? Z.of_nat (length required))
              then JArr (map JStr required) else JUndefined);
            ("additionalProperties", JBool false) ]).
  destruct (object_entries shape [] []) as [properties required]; simpl fst; simpl snd.
  destruct required; reflexivity.
Qed.

Lemma object_entries_required :
  forall l properties required,
    snd (object_entries l properties required) = required ++ required_fields l.
Proof.
  induction l as [|[key value] rest IH]; intros properties required; simpl.
  - now rewrite app_nil_r.
  - rewrite IH. unfold required_fields. simpl.
    destruct (isOptional value); simpl.
    + reflexivity.
    + now rewrite <- app_assoc.
Qed.

Lemma flat_map_JStr (names : list string) :
  flat_map (fun v => match v with JStr s => [s] | _ => [] end) (map JStr names)
  = names.
Proof.
  induction names as [|n rest IH]; simpl; [reflexivity | now rewrite IH].
Qed.

Lemma required_of_object (shape : list (string * ZodType)) :
  required_of (zodToJsonSchema (ZodObject shape)) = required_fields shape.
Proof.
  rewrite zodToJsonSchema_object, object_entries_required. simpl app.
  unfold required_of, object_field. simpl obj_get.
  destruct (required_fields shape) as [|n rest]; [reflexivity|].
  apply (flat_map_JStr (n :: rest)).
Qed.

Lemma in_required_fields (shape : list (string * ZodType)) (key : string) :
  In key (required_fields shape) <->
  exists value, In (key, value) shape /\ isOptional value = false.
Proof.
  unfold required_fields. rewrite in_map_iff. split.
  - intros [[k v] [Hk Hin]]. simpl in Hk. subst k.
    apply filter_In in Hin. destruct Hin as [Hin Hopt]. simpl in Hopt.
    exists v. split; [assumption|]. now destruct (isOptional v).
  - intros [value [Hin Hopt]]. exists (key, value). split; [reflexivity|].
    apply filter_In. split; [assumption|]. simpl. now rewrite Hopt.
Qed.

Lemma isOptional_ZodOptional (inner : ZodType) :
  isOptional (ZodOptional inner) = true.
Proof. reflexivity. Qed.

Lemma isOptional_plain (schema : ZodType) :
  is_plain schema = true -> isOptional schema = false.
Proof.
  destruct schema; simpl; intros H; try discriminate; reflexivity.
Qed.

Lemma NoDup_keys_value :
  forall (shape : list (string * ZodType)) key v1 v2,
    NoDup (map fst shape) -> In (key, v1) shape -> In (key, v2) shape -> v1 = v2.
Proof.
  induction shape as [|[k v] rest IH]; intros key v1 v2 Hnd H1 H2; simpl in *.
  - contradiction.
  - inversion Hnd as [|? ? Hnotin Hnd']; subst.
    destruct H1 as [H1|H1]; destruct H2 as [H2|H2].
    + congruence.
    + inversion H1; subst. exfalso. apply Hnotin.
      apply (in_map fst) in H2. exact H2.
    + inversion H2; subst. exfalso. apply Hnotin.
      apply (in_map fst) in H1. exact H1.
    + eauto.
Qed.

Lemma obj_set_Forall {A : Type} (Q : string * A -> Prop) :
  forall (o : list (string * A)) k v,
    (forall k', Q (k', v)) -> Forall Q o -> Forall Q (obj_set o k v).
Proof.
  induction o as [|[k0 v0] rest IH]; intros k v Hv Ho; simpl.
  - constructor; [apply Hv | constructor].
  - inversion Ho; subst. destruct (String.eqb k0 k).
    + constructor; [apply Hv | assumption].
    + constructor; [assumption | now apply IH].
Qed.

Lemma obj_assign_Forall {A : Type} (Q : string * A -> Prop) :
  forall (o : list (string * A)) k v,
    (forall k', Q (k', v)) -> Forall Q o -> Forall Q (obj_assign o k v).
Proof.
  intros o k v Hv Ho. unfold obj_assign.
  destruct (String.eqb k "__proto__"); [exact Ho | now apply obj_set_Forall].
Qed.

Lemma object_entries_properties (Q : JsValue -> Prop) :
  forall l properties required,
    Forall (fun entry => Q (zodToJsonSchema (snd entry))) l ->
    Forall (fun entry => Q (snd entry)) properties ->
    Forall (fun entry => Q (snd entry)) (fst (object_entries l properties required)).
Proof.
  induction l as [|[key value] rest IH]; intros properties required Hl Hp; simpl.
  - exact Hp.
  - inversion Hl; subst. apply IH; [assumption|].
    apply obj_assign_Forall; [intros k'; assumption | assumption].
Qed.

Lemma strict_values :
  forall entries : list (string * JsValue),
    Forall (fun entry => strict_object (snd entry)) entries ->
    (fix values (l : list (string * JsValue)) : bool :=
       match l with
       | [] => true
       | (_, v) :: rest => strict v && values rest
       end) entries = true.
Proof.
  induction 1 as [|[k v] rest [Hv _] _ IH]; [reflexivity|].
  simpl in Hv. now rewrite Hv, IH.
Qed.

Lemma mapping_declares_no_object :
  forall entries : list (string * JsValue),
    Forall (fun entry => strict_object (snd entry)) entries ->
    declares_object entries = false.
Proof.
  unfold declares_object.
  induction 1 as [|[k v] rest [_ [e He]] _ IH]; [reflexivity|].
  simpl in He. subst v. simpl. destruct (String.eqb k "type"); [reflexivity | exact IH].
Qed.

Lemma strict_mapping (entries : list (string * JsValue)) :
  Forall (fun entry => strict_object (snd entry)) entries ->
  strict (JObj entries) = true.
Proof.
  intros H. simpl. rewrite (mapping_declares_no_object _ H).
  simpl. now apply strict_values.
Qed.

Lemma strict_names (names : list string) : strict (JArr (map JStr names)) = true.
Proof.
  simpl. induction names as [|n rest IH]; [reflexivity | exact IH].
Qed.

Lemma strict_js_string (o : option string) : strict (js_string o) = true.
Proof. now destruct o. Qed.

Lemma strict_js_number (o : option Q) : strict (js_number o) = true.
Proof. now destruct o. Qed.

Lemma zodToJsonSchema_strict_object (schema : ZodType) :
  strict_object (zodToJsonSchema schema).
Proof.
  induction schema as [shape IH | d | d | d | element lo hi d IH | values d
                       | inner IH | validate] using ZodType_nested_ind.
  - rewrite zodToJsonSchema_object. split; [|eexists; reflexivity].
    assert (Hp : strict (JObj (fst (object_entries shape [] []))) = true).
    { apply strict_mapping.
      apply (object_entries_properties strict_object); [exact IH | constructor]. }
    assert (Hr : strict (match snd (object_entries shape [] []) with
                         | [] => JUndefined
                         | names => JArr (map JStr names)
                         end) = true).
    { destruct (snd (object_entries shape [] [])) as [|n rest];
        [reflexivity | apply (strict_names (n :: rest))]. }
    change (closed_object
              [("type", JStr "object");
               ("properties", JObj (fst (object_entries shape [] [])));
               ("required",
                 match snd (object_entries shape [] []) with
                 | [] => JUndefined
                 | names => JArr (map JStr names)
                 end);
               ("additionalProperties", JBool false)]
            && (true && (strict (JObj (fst (object_entries shape [] [])))
                 && (strict (match snd (object_entries shape [] []) with
                             | [] => JUndefined
                             | names => JArr (map JStr names)
                             end) && (true && true)))) = true).
    rewrite Hp, Hr. reflexivity.
  - split; [|eexists; reflexivity]. simpl. now rewrite strict_js_string.
  - split; [|eexists; reflexivity]. simpl. now rewrite strict_js_string.
  - split; [|eexists; reflexivity]. simpl. now rewrite strict_js_string.
  - destruct IH as [IH _]. split; [|eexists; reflexivity].
    change (true && (true && (strict (zodToJsonSchema element)
              && (strict (js_string d)
              && (strict (js_number lo) && (strict (js_number hi) && true)))))
            = true).
    now rewrite IH, strict_js_string, !strict_js_number.
  - split; [|eexists; reflexivity].
    change (true && (true && (strict (JArr (map JStr values))
              && (strict (js_string d) && true))) = true).
    now rewrite strict_names, strict_js_string.
  - exact IH.
  - split; [reflexivity | eexists; reflexivity].
Qed.

Lemma strict_property :
  forall (entries : list (string * JsValue)) k x,
    strict (JObj entries) = true -> In (k, x) entries -> strict x = true.
Proof.
  intros entries k x H Hin. simpl in H. apply andb_true_iff in H.
  destruct H as [_ H]. induction entries as [|[k0 v0] rest IH]; [contradiction|].
  apply andb_true_iff in H. destruct H as [Hv Hrest].
  destruct Hin as [Heq|Hin]; [now inversion Heq; subst | now apply IH].
Qed.

Lemma strict_element :
  forall (items : list JsValue) x,
    strict (JArr items) = true -> In x items -> strict x = true.
Proof.
  intros items x H Hin. simpl in H.
  induction items as [|v0 rest IH]; [contradiction|].
  apply andb_true_iff in H. destruct H as [Hv Hrest].
  destruct Hin as [Heq|Hin]; [now subst | now apply IH].
Qed.

Lemma strict_inside :
  forall doc v, inside v doc -> strict doc = true -> strict v = true.
Proof.
  intros doc v H. induction H as [| k x entries Hin _ IH | x items Hin _ IH];
    intros Hs.
  - exact Hs.
  - apply IH. exact (@strict_property entries k x Hs Hin).
  - apply IH. exact (@strict_element items x Hs Hin).
Qed.

(** C7.  For every schema node, every object that occurs in the compiled
    output, at whatever depth, and that declares [type: "object"] carries
    [additionalProperties: false]. *)
Theorem C7_every_object_is_closed :
  forall (schema : ZodType) (entries : list (string * JsValue)),
    inside (JObj entries) (zodToJsonSchema schema) ->
    obj_get entries "type" = Some (JStr "object") ->
    obj_get entries "additionalProperties" = Some (JBool false).
Proof.
  intros schema entries Hin Htype.
  pose proof (strict_inside _ _ Hin (proj1 (zodToJsonSchema_strict_object schema)))
    as Hs.
  simpl in Hs. apply andb_true_iff in Hs. destruct Hs as [Hs _].
  unfold declares_object, closed_object in Hs. rewrite Htype in Hs.
  destruct (obj_get entries "additionalProperties") as [[| |[|]| | | | |]|];
    try discriminate. reflexivity.
Qed.

(** C7 at the object three levels down in [nested_shape]. *)
Lemma C7_witness :
  obj_get
    [ ("type", JStr "object");
      ("properties",
        JObj [("label", JObj [("type", JStr "string");
                              ("description", JUndefined)])]);
      ("required", JArr [JStr "label"]);
      ("additionalProperties", JBool false) ]
    "additionalProperties" = Some (JBool false).
Proof.
  apply (@C7_every_object_is_closed (ZodObject nested_shape)).
  - eapply inside_property; [right; left; reflexivity|].
    eapply inside_property; [left; reflexivity|].
    eapply inside_property; [right; left; reflexivity|].
    eapply inside_property; [left; reflexivity|].
    eapply inside_property; [right; left; reflexivity|].
    apply inside_here.
  - reflexivity.
Defined.

(** C2, as stated, fails at [{x: z.any()}]: the field is not wrapped in
    Optional and yet is not listed, because [z.any().isOptional()] holds. *)
Lemma C2_counterexample :
  is_ZodOptional z_any = false /\
  In ("x", z_any) [("x", z_any)] /\
  required_of (zodToJsonSchema (ZodObject [("x", z_any)])) = [].
Proof. repeat split. left; reflexivity. Qed.

(** C2, amended.  For every Object node: a field is listed in [required]
    exactly when [isOptional()] of its node is false; a field wrapped in
    Optional is never listed; a field whose node is a plain Object, String,
    Number, Boolean, Array or Enum always is; and when no field is required,
    [required] is [undefined] in the compiled object, so that the
    serialized document has no [required] key (not an empty list). *)
Theorem C2_required_follows_isOptional :
  forall shape : list (string * ZodType),
    let doc := zodToJsonSchema (ZodObject shape) in
    (forall key,
        In key (required_of doc) <->
        exists value, In (key, value) shape /\ isOptional value = false)
    /\ (forall key inner,
           NoDup (map fst shape) ->
           In (key, ZodOptional inner) shape -> ~ In key (required_of doc))
    /\ (forall key value,
           In (key, value) shape -> is_plain value = true ->
           In key (required_of doc))
    /\ ((forall key value, In (key, value) shape -> isOptional value = true) ->
        object_field doc "required" = Some JUndefined /\
        object_field (serialized doc) "required" = None).
Proof.
  intros shape doc. subst doc. rewrite required_of_object.
  split; [|split; [|split]].
  - intros key. apply in_required_fields.
  - intros key inner Hnd Hin Hreq.
    apply in_required_fields in Hreq. destruct Hreq as [value [Hin' Hopt]].
    rewrite (@NoDup_keys_value shape key value (ZodOptional inner) Hnd Hin' Hin) in Hopt. discriminate.
  - intros key value Hin Hplain. apply in_required_fields.
    exists value. split; [assumption | now apply isOptional_plain].
  - intros Hall.
    assert (Hnone : required_fields shape = []).
    { destruct (required_fields shape) as [|key rest] eqn:E; [reflexivity|].
      assert (Hin : In key (required_fields shape)) by (rewrite E; now left).
      apply in_required_fields in Hin. destruct Hin as [value [Hin Hopt]].
      rewrite (Hall _ _ Hin) in Hopt. discriminate. }
    rewrite zodToJsonSchema_object, object_entries_required, Hnone.
    split; reflexivity.
Qed.

(** C2 at [nested_shape]: [profile] is listed and [note] is not; and at
    [{note?}] the serialized document has no [required] key. *)
Lemma C2_witness :
  In "profile" (required_of (zodToJsonSchema (ZodObject nested_shape))) /\
  ~ In "note" (required_of (zodToJsonSchema (ZodObject nested_shape))) /\
  object_field
    (serialized (zodToJsonSchema (ZodObject [("note", ZodOptional (ZodString None))])))
    "required" = None.
Proof.
  split; [|split].
  - apply (proj1 (proj2 (proj2 (C2_required_follows_isOptional nested_shape)))
             "profile" (ZodObject
                          [("tags", ZodArray (ZodObject [("label", ZodString None)])
                                             None None None)])).
    + left; reflexivity.
    + reflexivity.
  - apply (proj1 (proj2 (C2_required_follows_isOptional nested_shape))
             "note" (ZodString (Some "free text"))).
    + repeat constructor; simpl; intuition discriminate.
    + right; left; reflexivity.
  - apply (proj2 (proj2 (proj2 (C2_required_follows_isOptional
                                  [("note", ZodOptional (ZodString None))])))).
    intros key value [H|[]]. inversion H. reflexivity.
Defined.

(* ================================================================== *)
(** ** The completion client: one turn *)

Section Turn.

Variable host : Host.
Variable options : GenerateTextOptions.

Lemma quiet_app (a b : Log) : quiet a -> quiet b -> quiet (a ++ b).
Proof. unfold quiet. intros Ha Hb. apply Forall_app. now split. Qed.

Lemma round_trips_app (a b : Log) :
  round_trips (a ++ b) = (round_trips a + round_trips b)%nat.
Proof. unfold round_trips. now rewrite filter_app, length_app. Qed.

Lemma round_trips_quiet (execs : Log) : quiet execs -> round_trips execs = O.
Proof.
  unfold round_trips. induction 1 as [|e rest He _ IH]; [reflexivity|].
  simpl. now rewrite He.
Qed.

(** What one tool call does: it throws, or it appends tool messages, one
    for each execution it logs, and it never calls the endpoint. *)
Lemma run_tool_call_cases (messages : list Message) (toolCall : ToolCall)
      (log : Log) :
  exists outcome execs,
    run_tool_call host options messages toolCall log = (outcome, log ++ execs)
    /\ quiet execs
    /\ match outcome with
       | Return messages' =>
           exists added, messages' = messages ++ added
                         /\ Forall tool_role added
                         /\ length added = length execs
       | Throw _ => True
       end.
Proof.
  unfold run_tool_call.
  destruct (JSON_parse host (call_arguments toolCall)) as [toolArgs|].
  - destruct (tools_get (tools options) (call_name toolCall)) as [toolDef| |].
    + unfold bind, await_execute.
      destruct (execute toolDef log toolArgs) as [result|e].
      * eexists _, [_]. split; [reflexivity|]. split.
        -- constructor; [reflexivity | constructor].
        -- eexists [_]. split; [reflexivity|]. split; [|reflexivity].
           constructor; [reflexivity | constructor].
      * eexists _, [_]. split; [reflexivity|]. split; [|exact I].
        constructor; [reflexivity | constructor].
    + exists (Throw (TypeError "tool.execute is not a function")), [].
      rewrite app_nil_r. split; [reflexivity|]. split; [constructor | exact I].
    + exists (Return messages), []. rewrite app_nil_r.
      split; [reflexivity|]. split; [constructor|].
      exists []. rewrite app_nil_r. repeat split. constructor.
  - exists (Throw SyntaxError), []. rewrite app_nil_r.
    split; [reflexivity|]. split; [constructor | exact I].
Qed.

Lemma run_tool_calls_cases (calls : list ToolCall) :
  forall (messages : list Message) (log : Log),
  exists outcome execs,
    run_tool_calls host options messages calls log = (outcome, log ++ execs)
    /\ quiet execs
    /\ match outcome with
       | Return messages' =>
           exists added, messages' = messages ++ added
                         /\ Forall tool_role added
                         /\ length added = length execs
       | Throw _ => True
       end.
Proof.
  induction calls as [|toolCall rest IH]; intros messages log.
  - exists (Return messages), []. rewrite app_nil_r.
    split; [reflexivity|]. split; [constructor|].
    exists []. rewrite app_nil_r. repeat split. constructor.
  - destruct (run_tool_call_cases messages toolCall log)
      as [outcome [execs [Hrun [Hquiet Hout]]]].
    simpl. unfold bind at 1. rewrite Hrun. destruct outcome as [messages'|e].
    + destruct Hout as [added [-> [Hadded Hlen]]].
      destruct (IH (messages ++ added) (log ++ execs))
        as [outcome2 [execs2 [Hrun2 [Hquiet2 Hout2]]]].
      exists outcome2, (execs ++ execs2). rewrite Hrun2, app_assoc.
      split; [reflexivity|]. split; [now apply quiet_app|].
      destruct outcome2 as [messages''|e]; [|exact I].
      destruct Hout2 as [added2 [-> [Hadded2 Hlen2]]].
      exists (added ++ added2). rewrite app_assoc. split; [reflexivity|].
      split; [apply Forall_app; now split|].
      rewrite !length_app. congruence.
    + exists (Throw e), execs. split; [reflexivity|]. split; [assumption | exact I].
Qed.



(** What a tool call logs does not depend on how it ends. *)
Lemma run_tool_call_logs (messages : list Message) (call : ToolCall)
      (log : Log) :
  snd (run_tool_call host options messages call log)
  = log ++ execution_of host options call.
Proof.
  unfold run_tool_call, execution_of.
  destruct (JSON_parse host (call_arguments call)) as [toolArgs|];
    [|simpl; now rewrite app_nil_r].
  destruct (tools_get (tools options) (call_name call)) as [toolDef| |];
    try (simpl; now rewrite app_nil_r).
  unfold bind, await_execute. destruct (execute toolDef log toolArgs); reflexivity.
Qed.

(** A call that names a registered tool and whose arguments are JSON is
    among the executions of its reply. *)
Lemma registered_call_is_executed (calls : list ToolCall) (call : ToolCall)
      (toolArgs : JsValue) :
  In call calls ->
  registered (tools options) (call_name call) = true ->
  JSON_parse host (call_arguments call) = Some toolArgs ->
  In (EvExecute (call_name call) toolArgs) (executions_of host options calls).
Proof.
  intros Hin Hreg Hparse. unfold executions_of. apply in_flat_map.
  exists call. split; [exact Hin|]. unfold execution_of. rewrite Hparse.
  unfold registered in Hreg. unfold tools_get.
  destruct (tools options) as [own|]; [|discriminate].
  destruct (obj_get own (call_name call)); [now left | discriminate].
Qed.

(** What one pass of the loop does.  It starts with one request, built
    from the transcript; everything after it in the log is quiet.  When it
    does not throw, the endpoint replied, the reply and the tool messages
    were appended, the step count grew by one, and the loop goes on only
    below the ceiling. *)
Lemma iteration_cases (messages : list Message) (stepCount : Z) (log : Log) :
  exists outcome execs,
    iteration host options messages stepCount log
    = (outcome, log ++ EvFetch (text_request host options messages) :: execs)
    /\ quiet execs
    /\ match outcome with
       | Return (messages', stepCount', shouldStop) =>
           stepCount' = stepCount + 1
           /\ (shouldStop = false -> stepCount' < 10)
           /\ exists reply added,
               fetch host log (text_request host options messages)
               = Return (Ok reply)
               /\ messages' = messages ++ reply :: added
               /\ Forall tool_role added
               /\ length added = length execs
       | Throw _ => True
       end.
Proof.
  unfold iteration, bind at 1, await_fetch.
  destruct (fetch host log (text_request host options messages))
    as [[body|reply|unreadable]|e].
  - eexists _, []. split; [reflexivity|]. split; [constructor | exact I].
  - assert (Hstop : forall b : bool,
               (if 10 <=? stepCount + 1 then true else b) = false ->
               stepCount + 1 < 10).
    { intros b. destruct (Z.leb_spec 10 (stepCount + 1)); [discriminate | lia]. }
    destruct (tool_calls reply) as [[|toolCall calls]|].
    + eexists _, []. split; [reflexivity|]. split; [constructor|].
      split; [reflexivity|]. split; [apply Hstop|].
      exists reply, []. repeat split. constructor.
    + destruct (run_tool_calls_cases (toolCall :: calls) (messages ++ [reply])
                  (log ++ [EvFetch (text_request host options messages)]))
        as [outcome [execs [Hrun [Hquiet Hout]]]].
      unfold bind at 1. unfold bind at 1. rewrite Hrun.
      rewrite <- app_assoc. simpl app.
      destruct outcome as [messages'|e].
      * destruct Hout as [added [-> [Hadded Hlen]]].
        eexists _, execs. split; [reflexivity|]. split; [assumption|].
        split; [reflexivity|]. split; [apply Hstop|].
        exists reply, added. rewrite <- app_assoc. repeat split; assumption.
      * eexists _, execs. split; [reflexivity|]. split; [assumption | exact I].
    + eexists _, []. split; [reflexivity|]. split; [constructor|].
      split; [reflexivity|]. split; [apply Hstop|].
      exists reply, []. repeat split. constructor.
  - eexists _, []. split; [reflexivity|]. split; [constructor | exact I].
  - eexists _, []. split; [reflexivity|]. split; [constructor | exact I].
Qed.

End Turn.

(* ================================================================== *)
(** ** The completion client: the loop *)

Lemma split_after_prefix {A : Type} :
  forall (l1 l2 pre : list A) (x : A) (post : list A),
    l1 ++ l2 = pre ++ x :: post ->
    (length l1 <= length pre)%nat ->
    exists mid, pre = l1 ++ mid /\ l2 = mid ++ x :: post.
Proof.
  induction l1 as [|a l1 IH]; intros l2 pre x post Heq Hlen.
  - exists pre. split; [reflexivity | exact Heq].
  - destruct pre as [|b pre]; [simpl in Hlen; lia|].
    simpl in Heq. injection Heq as -> Heq. simpl in Hlen.
    destruct (IH l2 pre x post Heq) as [mid [-> ->]]; [lia|].
    exists mid. split; reflexivity.
Qed.

Lemma found_in_prefix {A : Type} :
  forall (l1 l2 pre : list A) (x : A) (post : list A),
    l1 ++ l2 = pre ++ x :: post ->
    (length pre < length l1)%nat ->
    In x l1.
Proof.
  induction l1 as [|a l1 IH]; intros l2 pre x post Heq Hlen.
  - simpl in Hlen. lia.
  - destruct pre as [|b pre]; simpl in Heq; injection Heq as -> Heq.
    + now left.
    + right. apply (IH l2 pre x post Heq). simpl in Hlen. lia.
Qed.

Section Loop.

Variable host : Host.
Variable options : GenerateTextOptions.

Lemma loop_S (fuel : nat) (messages : list Message) (stepCount : Z) (log : Log) :
  loop host options (S fuel) messages stepCount log =
  match iteration host options messages stepCount log with
  | (Throw e, log') => Some (Throw e, log')
  | (Return (messages', stepCount', shouldStop), log') =>
      if shouldStop then Some (Return (messages', stepCount'), log')
      else loop host options fuel messages' stepCount' log'
  end.
Proof. reflexivity. Qed.

(** More fuel never changes a result. *)
Lemma loop_fuel_mono :
  forall fuel messages stepCount log result,
    loop host options fuel messages stepCount log = Some result ->
    forall fuel', (fuel <= fuel')%nat ->
    loop host options fuel' messages stepCount log = Some result.
Proof.
  induction fuel as [|fuel IH]; intros messages stepCount log result H fuel' Hle.
  - discriminate.
  - destruct fuel' as [|fuel']; [lia|]. rewrite loop_S in H |- *.
    destruct (iteration host options messages stepCount log)
      as [[[[messages' stepCount'] [|]]|e] log']; try assumption.
    apply (IH _ _ _ _ H). lia.
Qed.

(** The loop ends, within the passes the ceiling leaves. *)
Lemma loop_terminates :
  forall fuel messages stepCount log,
    (1 <= fuel)%nat -> 10 - stepCount <= Z.of_nat fuel ->
    exists outcome more,
      loop host options fuel messages stepCount log = Some (outcome, log ++ more)
      /\ (1 <= round_trips more)%nat
      /\ Z.of_nat (round_trips more) <= Z.max 1 (10 - stepCount).
Proof.
  induction fuel as [|fuel IH]; intros messages stepCount log Hpos Hfuel; [lia|].
  rewrite loop_S.
  destruct (iteration_cases host options messages stepCount log)
    as [outcome [execs [Hit [Hquiet Hout]]]].
  rewrite Hit.
  assert (Hone : round_trips (EvFetch (text_request host options messages) :: execs)
                 = 1%nat).
  { change (S (round_trips execs) = 1%nat). now rewrite round_trips_quiet. }
  destruct outcome as [[[messages' stepCount'] shouldStop]|e].
  - destruct Hout as [-> [Hceiling _]]. destruct shouldStop.
    + eexists _, _. split; [reflexivity|]. rewrite Hone. lia.
    + specialize (Hceiling eq_refl).
      destruct (IH messages' (stepCount + 1)
                   (log ++ EvFetch (text_request host options messages) :: execs))
        as [outcome [more [Hloop [Hlo Hhi]]]]; [lia | lia |].
      rewrite Hloop, <- app_assoc.
      eexists _, _. split; [reflexivity|].
      rewrite round_trips_app, Hone. lia.
  - eexists _, _. split; [reflexivity|]. rewrite Hone. lia.
Qed.

Lemma loop_extends :
  forall fuel messages stepCount log outcome log',
    loop host options fuel messages stepCount log = Some (outcome, log') ->
    exists more, log' = log ++ more /\ (1 <= round_trips more)%nat.
Proof.
  induction fuel as [|fuel IH]; intros messages stepCount log outcome log' H;
    [discriminate|].
  rewrite loop_S in H.
  destruct (iteration_cases host options messages stepCount log)
    as [o [execs [Hit _]]].
  rewrite Hit in H.
  assert (Hone : forall more,
             (1 <= round_trips
                     ((EvFetch (text_request host options messages) :: execs)
                        ++ more))%nat).
  { intros more. rewrite round_trips_app.
    change (1 <= S (round_trips execs) + round_trips more)%nat. lia. }
  destruct o as [[[messages' stepCount'] [|]]|e].
  - injection H as _ <-. eexists. split; [reflexivity|].
    rewrite <- (app_nil_r (_ :: _)). apply Hone.
  - destruct (IH _ _ _ _ _ H) as [more [-> _]]. rewrite <- app_assoc.
    eexists. split; [reflexivity | apply Hone].
  - injection H as _ <-. eexists. split; [reflexivity|].
    rewrite <- (app_nil_r (_ :: _)). apply Hone.
Qed.

(** What the loop logs starts with the request built from its
    transcript. *)
Lemma loop_starts_with_request :
  forall fuel messages stepCount log outcome log',
    loop host options fuel messages stepCount log = Some (outcome, log') ->
    exists rest,
      log' = log ++ EvFetch (text_request host options messages) :: rest.
Proof.
  intros [|fuel] messages stepCount log outcome log' H; [discriminate|].
  rewrite loop_S in H.
  destruct (iteration_cases host options messages stepCount log)
    as [o [execs [Hit _]]].
  rewrite Hit in H.
  destruct o as [[[messages' stepCount'] [|]]|e].
  - injection H as _ <-. now exists execs.
  - destruct (loop_extends _ _ _ _ _ _ H) as [more [-> _]].
    rewrite <- app_assoc. now exists (execs ++ more).
  - injection H as _ <-. now exists execs.
Qed.

(** Every request in the log of a run opens a pass of the loop, and the run
    is the loop continued from there. *)
Lemma loop_fetch_inversion :
  forall fuel messages stepCount log outcome log',
    loop host options fuel messages stepCount log = Some (outcome, log') ->
    forall pre request post,
      log' = pre ++ EvFetch request :: post ->
      (length log <= length pre)%nat ->
      exists fuel_i messages_i stepCount_i,
        request = text_request host options messages_i
        /\ loop host options (S fuel_i) messages_i stepCount_i pre
           = Some (outcome, log').
Proof.
  induction fuel as [|fuel IH];
    intros messages stepCount log outcome log' H pre request post Hlog Hlen;
    [discriminate|].
  pose proof H as Hwhole.
  rewrite loop_S in H.
  destruct (iteration_cases host options messages stepCount log)
    as [o [execs [Hit [Hquiet _]]]].
  rewrite Hit in H.
  set (request0 := text_request host options messages) in *.
  assert (Hplace : forall more,
             log' = (log ++ EvFetch request0 :: execs) ++ more ->
             (pre = log /\ request = request0)
             \/ (length (log ++ EvFetch request0 :: execs) <= length pre)%nat).
  { intros more Hmore. rewrite Hlog, <- app_assoc in Hmore. symmetry in Hmore.
    destruct (split_after_prefix _ _ _ _ _ Hmore Hlen) as [mid [Hpre Hrest]].
    destruct mid as [|e mid].
    - left. rewrite app_nil_r in Hpre. simpl in Hrest. injection Hrest as Hreq _.
      now split.
    - right. simpl in Hrest. injection Hrest as _ Hrest.
      destruct (Nat.le_gt_cases (length execs) (length mid)) as [Hle|Hgt].
      + rewrite Hpre, !length_app. simpl. lia.
      + pose proof (found_in_prefix _ _ _ _ _ Hrest Hgt) as Hin.
        unfold quiet in Hquiet. rewrite Forall_forall in Hquiet.
        specialize (Hquiet _ Hin). discriminate. }
  assert (Hhere : (pre = log /\ request = request0) ->
                  exists fuel_i messages_i stepCount_i,
                    request = text_request host options messages_i
                    /\ loop host options (S fuel_i) messages_i stepCount_i pre
                       = Some (outcome, log')).
  { intros [-> ->]. exists fuel, messages, stepCount. now split. }
  assert (Hlast : log' = log ++ EvFetch request0 :: execs ->
                  exists fuel_i messages_i stepCount_i,
                    request = text_request host options messages_i
                    /\ loop host options (S fuel_i) messages_i stepCount_i pre
                       = Some (outcome, log')).
  { intros Hend. destruct (Hplace []) as [Hp|Hp].
    - now rewrite app_nil_r.
    - now apply Hhere.
    - rewrite <- Hend, Hlog, length_app in Hp. simpl in Hp. lia. }
  destruct o as [[[messages' stepCount'] [|]]|e].
  - injection H as _ <-. now apply Hlast.
  - destruct (loop_extends _ _ _ _ _ _ H) as [more [Hmore _]].
    destruct (Hplace more Hmore) as [Hp|Hp]; [now apply Hhere|].
    exact (IH _ _ _ _ _ H pre request post Hlog Hp).
  - injection H as _ <-. now apply Hlast.
Qed.

(** A run that returns ends with a pass in which the endpoint replied: the
    transcript ends with the reply and the tool messages of that pass, one
    for each execution that follows the last request in the log. *)
Lemma loop_last_pass :
  forall fuel messages stepCount log final stepCount' log',
    loop host options fuel messages stepCount log
    = Some (Return (final, stepCount'), log') ->
    exists pre messages_i reply added execs,
      log' = pre ++ EvFetch (text_request host options messages_i) :: execs
      /\ quiet execs
      /\ fetch host pre (text_request host options messages_i) = Return (Ok reply)
      /\ final = messages_i ++ reply :: added
      /\ Forall tool_role added
      /\ length added = length execs.
Proof.
  induction fuel as [|fuel IH];
    intros messages stepCount log final stepCount' log' H; [discriminate|].
  rewrite loop_S in H.
  destruct (iteration_cases host options messages stepCount log)
    as [o [execs [Hit [Hquiet Hout]]]].
  rewrite Hit in H.
  destruct o as [[[messages1 stepCount1] [|]]|e].
  - injection H as <- _ <-.
    destruct Hout as [_ [_ [reply [added [Hfetch [-> [Hrole Hlen]]]]]]].
    exists log, messages, reply, added, execs. repeat split; assumption.
  - exact (IH _ _ _ _ _ _ H).
  - discriminate.
Qed.

End Loop.

(* ================================================================== *)
(** ** The completion client: an endpoint that keeps requesting tools *)

Section Forever.

Variable host : Host.
Variable options : GenerateTextOptions.

Lemma run_tool_call_ok (messages : list Message) (toolCall : ToolCall) (log : Log) :
  runs_ok host options toolCall ->
  exists messages' execs,
    run_tool_call host options messages toolCall log
    = (Return messages', log ++ execs)
    /\ quiet execs.
Proof.
  intros [[toolArgs Hargs] Htool]. unfold run_tool_call. rewrite Hargs.
  destruct (tools_get (tools options) (call_name toolCall)) as [toolDef| |].
  - destruct (Htool log toolArgs) as [result Hresult].
    unfold bind, await_execute. rewrite Hresult.
    eexists _, [_]. split; [reflexivity|].
    constructor; [reflexivity | constructor].
  - contradiction.
  - exists messages, []. rewrite app_nil_r. split; [reflexivity | constructor].
Qed.

Lemma run_tool_calls_ok (calls : list ToolCall) :
  Forall (runs_ok host options) calls ->
  forall messages log,
  exists messages' execs,
    run_tool_calls host options messages calls log
    = (Return messages', log ++ execs)
    /\ quiet execs.
Proof.
  induction 1 as [|toolCall rest Hcall _ IH]; intros messages log.
  - exists messages, []. rewrite app_nil_r. split; [reflexivity | constructor].
  - destruct (run_tool_call_ok messages toolCall log Hcall)
      as [messages1 [execs1 [H1 Hq1]]].
    destruct (IH messages1 (log ++ execs1)) as [messages2 [execs2 [H2 Hq2]]].
    simpl. unfold bind at 1. rewrite H1, H2, <- app_assoc.
    eexists _, _. split; [reflexivity | now apply quiet_app].
Qed.

(** Calls that run log exactly their executions. *)
Lemma run_tool_calls_ok_logs (calls : list ToolCall) :
  Forall (runs_ok host options) calls ->
  forall messages log,
  exists messages',
    run_tool_calls host options messages calls log
    = (Return messages', log ++ executions_of host options calls).
Proof.
  induction 1 as [|call rest Hcall _ IH]; intros messages log.
  - exists messages. unfold executions_of. simpl. now rewrite app_nil_r.
  - destruct (run_tool_call_ok messages call log Hcall)
      as [messages1 [execs1 [H1 _]]].
    pose proof (run_tool_call_logs host options messages call log) as Hlogs.
    rewrite H1 in Hlogs. simpl in Hlogs. apply app_inv_head in Hlogs.
    subst execs1.
    destruct (IH messages1 (log ++ execution_of host options call))
      as [messages2 H2].
    exists messages2.
    change (executions_of host options (call :: rest))
      with (execution_of host options call ++ executions_of host options rest).
    change (run_tool_calls host options messages (call :: rest) log)
      with (bind (run_tool_call host options messages call)
                 (fun messages' => run_tool_calls host options messages' rest)
                 log).
    unfold bind at 1. rewrite H1, H2, <- app_assoc. reflexivity.
Qed.

Hypothesis forever : requests_tools_forever host options.

(** Against such an endpoint a pass never throws, and only [stopWhen] or
    the ceiling stop the loop. *)
Lemma iteration_forever (messages : list Message) (stepCount : Z) (log : Log) :
  exists messages' execs,
    iteration host options messages stepCount log
    = (Return (messages', stepCount + 1,
               if 10 <=? stepCount + 1 then true
               else stop_requested options (stepCount + 1)),
       log ++ EvFetch (text_request host options messages) :: execs)
    /\ quiet execs.
Proof.
  destruct (forever log (text_request host options messages))
    as [reply [toolCall [calls [Hfetch [Hcalls Hok]]]]].
  destruct (run_tool_calls_ok _ Hok (messages ++ [reply])
              (log ++ [EvFetch (text_request host options messages)]))
    as [messages' [execs [Hrun Hquiet]]].
  exists messages', execs. split; [|assumption].
  unfold iteration, bind at 1, await_fetch. rewrite Hfetch, Hcalls.
  unfold bind at 1. unfold bind at 1. rewrite Hrun, <- app_assoc. reflexivity.
Qed.

(** The same pass, with what it logs: the request, then the executions of
    the calls of the reply. *)
Lemma iteration_forever_logs (messages : list Message) (stepCount : Z)
      (log : Log) :
  exists reply calls messages',
    fetch host log (text_request host options messages) = Return (Ok reply)
    /\ tool_calls reply = Some calls
    /\ calls <> []
    /\ Forall (runs_ok host options) calls
    /\ iteration host options messages stepCount log
       = (Return (messages', stepCount + 1,
                  if 10 <=? stepCount + 1 then true
                  else stop_requested options (stepCount + 1)),
          log ++ EvFetch (text_request host options messages)
              :: executions_of host options calls).
Proof.
  destruct (forever log (text_request host options messages))
    as [reply [toolCall [calls [Hfetch [Hcalls Hok]]]]].
  destruct (run_tool_calls_ok_logs _ Hok (messages ++ [reply])
              (log ++ [EvFetch (text_request host options messages)]))
    as [messages' Hrun].
  exists reply, (toolCall :: calls), messages'.
  split; [exact Hfetch|]. split; [exact Hcalls|]. split; [discriminate|].
  split; [exact Hok|].
  unfold iteration, bind at 1, await_fetch. rewrite Hfetch, Hcalls.
  unfold bind at 1. unfold bind at 1. rewrite Hrun, <- app_assoc. reflexivity.
Qed.

(** Against such an endpoint every request of a run is followed by the
    executions of the calls of its reply, and then by the next request or by
    nothing. *)
Lemma loop_forever_turns :
  forall fuel messages stepCount log outcome log' pre request post,
    loop host options fuel messages stepCount log = Some (outcome, log') ->
    log' = pre ++ EvFetch request :: post ->
    (length log <= length pre)%nat ->
    exists reply calls rest,
      fetch host pre request = Return (Ok reply)
      /\ tool_calls reply = Some calls
      /\ calls <> []
      /\ Forall (runs_ok host options) calls
      /\ post = executions_of host options calls ++ rest
      /\ (rest = [] \/ exists request' rest', rest = EvFetch request' :: rest').
Proof.
  intros fuel messages stepCount log outcome log' pre request post H Hlog Hlen.
  destruct (loop_fetch_inversion host options _ _ _ _ _ _ H pre request post
              Hlog Hlen)
    as [fuel_i [messages_i [stepCount_i [-> Hfrom]]]].
  rewrite loop_S in Hfrom.
  destruct (iteration_forever_logs messages_i stepCount_i pre)
    as [reply [calls [messages' [Hfetch [Hcalls [Hne [Hok Hit]]]]]]].
  rewrite Hit in Hfrom. exists reply, calls.
  destruct (if 10 <=? stepCount_i + 1 then true
            else stop_requested options (stepCount_i + 1)).
  - injection Hfrom as _ Hend. rewrite Hlog in Hend.
    apply app_inv_head in Hend. injection Hend as Hend.
    exists []. rewrite app_nil_r. repeat split; try assumption.
    + now symmetry.
    + now left.
  - destruct (loop_starts_with_request _ _ _ _ _ _ _ _ Hfrom) as [rest' Hrest].
    rewrite Hlog, <- app_assoc in Hrest. apply app_inv_head in Hrest.
    simpl in Hrest. injection Hrest as Hrest.
    exists (EvFetch (text_request host options messages') :: rest').
    repeat split; try assumption. right. now eexists _, _.
Qed.

(** The loop stops at the first step count [last] at which [stopWhen]
    holds or the ceiling is reached, after one request for each step. *)
Lemma loop_forever (last : Z) :
  last <= 10 ->
  (last = 10 \/ stop_requested options last = true) ->
  forall passes : nat,
    (1 <= passes)%nat ->
    forall stepCount messages log fuel,
      stepCount + Z.of_nat passes = last ->
      (forall c, stepCount < c < last -> stop_requested options c = false) ->
      (passes <= fuel)%nat ->
      exists final more,
        loop host options fuel messages stepCount log
        = Some (Return (final, last), log ++ more)
        /\ round_trips more = passes.
Proof.
  intros Hceiling Hstop. induction passes as [|passes IH]; [lia|].
  intros Hpos stepCount messages log fuel Hlast Hbefore Hfuel.
  destruct fuel as [|fuel]; [lia|]. rewrite loop_S.
  destruct (iteration_forever messages stepCount log)
    as [messages' [execs [Hit Hquiet]]].
  rewrite Hit.
  assert (Hone : round_trips (EvFetch (text_request host options messages) :: execs)
                 = 1%nat).
  { change (S (round_trips execs) = 1%nat). now rewrite round_trips_quiet. }
  destruct passes as [|passes].
  - assert (Hnow : stepCount + 1 = last) by lia. rewrite Hnow.
    assert (Hyes : (if 10 <=? last then true else stop_requested options last)
                   = true).
    { destruct Hstop as [-> | ->]; [reflexivity | now destruct (10 <=? last)]. }
    rewrite Hyes. eexists _, _. split; [reflexivity | exact Hone].
  - assert (Hno : (if 10 <=? stepCount + 1 then true
                   else stop_requested options (stepCount + 1)) = false).
    { destruct (Z.leb_spec 10 (stepCount + 1)); [lia|]. apply Hbefore. lia. }
    rewrite Hno.
    destruct (IH ltac:(lia) (stepCount + 1) messages'
                 (log ++ EvFetch (text_request host options messages) :: execs)
                 fuel)
      as [final [more [Hloop Hcount]]].
    + lia.
    + intros c Hc. apply Hbefore. lia.
    + lia.
    + rewrite Hloop, <- app_assoc. eexists _, _. split; [reflexivity|].
      rewrite round_trips_app, Hone, Hcount. reflexivity.
Qed.

End Forever.

(* ================================================================== *)
(** ** [generateText]: termination and step counts *)

Lemma generateText_inv (host : Host) (options : GenerateTextOptions) (fuel : nat)
      (outcome : Completion Content) (log : Log) :
  generateText host options fuel = Some (outcome, log) ->
  exists ended,
    transcript host options fuel = Some (ended, log)
    /\ outcome = match ended with
                 | Return (final, _) => final_text final
                 | Throw e => Throw e
                 end.
Proof.
  unfold generateText.
  destruct (transcript host options fuel) as [[[[final stepCount]|e] log']|];
    intros H; try discriminate; injection H as <- <-;
    eexists; split; reflexivity.
Qed.

Lemma generateText_of_transcript (host : Host) (options : GenerateTextOptions)
      (fuel : nat) (final : list Message) (stepCount : Z) (log : Log) :
  transcript host options fuel = Some (Return (final, stepCount), log) ->
  generateText host options fuel = Some (final_text final, log).
Proof. unfold generateText. now intros ->. Qed.

Lemma requests_tools_forever_always_calls (stop : option (Z -> bool)) :
  requests_tools_forever (always_calls "search" "{}") (example_options stop).
Proof.
  intros log request.
  exists (assistant_call "search" "{}"), (mkToolCall "call_1" "search" "{}"), [].
  split; [reflexivity|]. split; [reflexivity|].
  constructor; [|constructor]. split.
  - exists (JObj []). reflexivity.
  - simpl. intros log' toolArgs. exists (JObj []). reflexivity.
Qed.

(** C1, as stated, fails where [stopWhen] holds before the ceiling: the
    endpoint requests a tool on every reply, [stopWhen] is
    [stepCountIs(2)], and the run makes 2 round trips, not 10. *)
Lemma C1_counterexample :
  (forall log request,
      fetch (always_calls "search" "{}") log request
      = Return (Ok (assistant_call "search" "{}")))
  /\ option_map (fun run => round_trips (snd run))
       (generateText (always_calls "search" "{}")
                     (example_options (Some (stepCountIs 2))) 10)
     = Some 2%nat.
Proof. split; [intros log request|]; reflexivity. Qed.

(** C1, amended.  Every run of [generateText] ends after at least one and
    at most 10 HTTP round trips, whatever [stopWhen] is (and fuel beyond 10
    changes nothing).  Against an
    endpoint that returns tool calls on every reply (none of which throws),
    the loop performs exactly 10 steps when [stopWhen] is absent or holds
    for no step count below 10. *)
Theorem C1_at_most_ten_round_trips :
  (forall host options fuel,
      (10 <= fuel)%nat ->
      exists outcome log,
        generateText host options fuel = Some (outcome, log)
        /\ generateText host options 10 = Some (outcome, log)
        /\ (1 <= round_trips log <= 10)%nat)
  /\ (forall host options fuel,
         (10 <= fuel)%nat ->
         requests_tools_forever host options ->
         (forall c, 1 <= c < 10 -> stop_requested options c = false) ->
         exists final log,
           transcript host options fuel = Some (Return (final, 10), log)
           /\ round_trips log = 10%nat).
Proof.
  split.
  - intros host options fuel Hfuel.
    destruct (@loop_terminates host options 10 (initial_messages options) 0 [])
      as [ended [more [Hloop [Hlo Hhi]]]]; [lia | lia |].
    simpl app in Hloop.
    assert (Hrange : (1 <= round_trips more <= 10)%nat) by lia.
    pose proof (loop_fuel_mono _ _ _ _ _ _ _ Hloop fuel Hfuel) as Hmore.
    unfold generateText, transcript. rewrite Hloop, Hmore.
    destruct ended as [[final stepCount]|e]; eexists _, _;
      (split; [reflexivity | split; [reflexivity | exact Hrange]]).
  - intros host options fuel Hfuel Hforever Hnever.
    destruct (@loop_forever host options Hforever 10 ltac:(lia)
                (or_introl eq_refl) 10%nat ltac:(lia)
                0 (initial_messages options) [] fuel)
      as [final [more [Hloop Hcount]]].
    + reflexivity.
    + intros c Hc. apply Hnever. lia.
    + exact Hfuel.
    + exists final, more. split; [exact Hloop | exact Hcount].
Qed.

(** C1 at the endpoint that requests [search] on every reply: at most 10
    round trips with [stepCountIs(2)], exactly 10 steps without
    [stopWhen]. *)
Lemma C1_witness :
  (exists outcome log,
      generateText (always_calls "search" "{}")
                   (example_options (Some (stepCountIs 2))) 12
      = Some (outcome, log)
      /\ generateText (always_calls "search" "{}")
                      (example_options (Some (stepCountIs 2))) 10
         = Some (outcome, log)
      /\ (1 <= round_trips log <= 10)%nat)
  /\ (exists final log,
         transcript (always_calls "search" "{}") (example_options None) 12
         = Some (Return (final, 10), log)
         /\ round_trips log = 10%nat).
Proof.
  split.
  - apply (proj1 C1_at_most_ten_round_trips). lia.
  - apply (proj2 C1_at_most_ten_round_trips).
    + lia.
    + apply requests_tools_forever_always_calls.
    + intros c Hc. reflexivity.
Defined.

(** C6, as stated, fails in two ways.  The endpoint requests [search] on
    every reply and [stopWhen] is [stepCountIs(2)]; when the registered tool
    rejects, the run is over after one turn, by that error.  And when the
    endpoint keeps requesting a tool the caller did not register, the run
    makes its 2 turns and no tool is executed in either. *)
Lemma C6_counterexample :
  (forall log request,
      fetch (always_calls "search" "{}") log request
      = Return (Ok (assistant_call "search" "{}")))
  /\ stopWhen broken_options_two_steps = Some (stepCountIs 2)
  /\ generateText (always_calls "search" "{}") broken_options_two_steps 10
     = Some (Throw (Error "index offline"),
             [EvFetch (text_request (always_calls "search" "{}")
                         broken_options_two_steps
                         (initial_messages broken_options_two_steps));
              EvExecute "search" (JObj [])])
  /\ option_map (fun run => (round_trips (snd run), executions (snd run)))
       (generateText (always_calls "lookup" "{}")
                     (example_options (Some (stepCountIs 2))) 10)
     = Some (2%nat, 0%nat).
Proof. repeat split. Qed.

(** C6, amended.  [stepCountIs(n)] holds on [currentCount] exactly when
    [currentCount >= n].  With [stopWhen = stepCountIs(n)], [n] from 1 to 10
    (2 in particular), against an endpoint that requests tools on every
    reply, none of which throws, the loop ends after exactly [n] turns: [n]
    requests, and after each request the executions of the calls of its
    reply, in order, and nothing else.  Every call that names a registered
    tool is among them. *)
Theorem C6_stepCountIs_ends_after_count :
  (forall count currentCount,
      stepCountIs count currentCount = true <-> currentCount >= count)
  /\ (forall host options fuel count,
         stopWhen options = Some (stepCountIs count) ->
         1 <= count <= 10 ->
         (10 <= fuel)%nat ->
         requests_tools_forever host options ->
         exists final log,
           transcript host options fuel = Some (Return (final, count), log)
           /\ round_trips log = Z.to_nat count
           /\ forall pre request post,
               log = pre ++ EvFetch request :: post ->
               exists reply calls rest,
                 fetch host pre request = Return (Ok reply)
                 /\ tool_calls reply = Some calls
                 /\ calls <> []
                 /\ post = executions_of host options calls ++ rest
                 /\ (rest = []
                     \/ exists request' rest', rest = EvFetch request' :: rest')
                 /\ forall call,
                     In call calls ->
                     registered (tools options) (call_name call) = true ->
                     exists toolArgs,
                       In (EvExecute (call_name call) toolArgs)
                          (executions_of host options calls)).
Proof.
  split.
  - intros count currentCount. unfold stepCountIs.
    rewrite Z.geb_leb, Z.leb_le. lia.
  - intros host options fuel count Hstop Hcount Hfuel Hforever.
    assert (Hat : forall c, stop_requested options c = stepCountIs count c).
    { intros c. unfold stop_requested. now rewrite Hstop. }
    assert (Hlast : stop_requested options count = true).
    { rewrite Hat. unfold stepCountIs. rewrite Z.geb_leb. apply Z.leb_le. lia. }
    destruct (@loop_forever host options Hforever count ltac:(lia)
                (or_intror Hlast) (Z.to_nat count) ltac:(lia)
                0 (initial_messages options) [] fuel)
      as [final [more [Hloop Hrounds]]].
    + lia.
    + intros c Hc. rewrite Hat. unfold stepCountIs.
      rewrite Z.geb_leb. apply Z.leb_gt. lia.
    + lia.
    + exists final, more. split; [exact Hloop|]. split; [exact Hrounds|].
      intros pre request post Hlog.
      destruct (@loop_forever_turns host options Hforever _ _ _ _ _ _
                  pre request post Hloop Hlog (Nat.le_0_l _))
        as [reply [calls [rest [Hfetch [Hcalls [Hne [Hok [Hpost Hrest]]]]]]]].
      exists reply, calls, rest. repeat split; try assumption.
      intros call Hin Hreg.
      rewrite Forall_forall in Hok. destruct (Hok call Hin) as [[toolArgs Hparse] _].
      exists toolArgs.
      now apply registered_call_is_executed.
Qed.

(** C6 with [stepCountIs(2)] at the endpoint that requests [search] on
    every reply: 2 requests, each followed by the execution of [search]. *)
Lemma C6_witness :
  exists final log,
    transcript (always_calls "search" "{}")
               (example_options (Some (stepCountIs 2))) 10
    = Some (Return (final, 2), log)
    /\ round_trips log = 2%nat
    /\ exists request request',
        log = [EvFetch request; EvExecute "search" (JObj []);
               EvFetch request'; EvExecute "search" (JObj [])].
Proof.
  destruct (proj2 C6_stepCountIs_ends_after_count
              (always_calls "search" "{}")
              (example_options (Some (stepCountIs 2))) 10%nat 2
              eq_refl ltac:(lia) ltac:(lia)
              (requests_tools_forever_always_calls (Some (stepCountIs 2))))
    as [final [log [Hrun [Hrounds _]]]].
  exists final, log. split; [exact Hrun|]. split; [exact Hrounds|].
  vm_compute in Hrun. injection Hrun as _ <-. eexists _, _. reflexivity.
Defined.

(* ================================================================== *)
(** ** [generateText] and [generateObject]: what is thrown *)

(** The run seen from one of its requests. *)
Lemma generateText_at_request (host : Host) (options : GenerateTextOptions)
      (fuel : nat) (outcome : Completion Content) (log pre : Log)
      (request : Request) (post : Log) :
  generateText host options fuel = Some (outcome, log) ->
  log = pre ++ EvFetch request :: post ->
  exists ended fuel_i messages_i stepCount_i,
    request = text_request host options messages_i
    /\ loop host options (S fuel_i) messages_i stepCount_i pre = Some (ended, log)
    /\ outcome = match ended with
                 | Return (final, _) => final_text final
                 | Throw e => Throw e
                 end.
Proof.
  intros Hrun Hlog.
  destruct (generateText_inv _ _ _ _ _ Hrun) as [ended [Hloop Hout]].
  unfold transcript in Hloop.
  destruct (loop_fetch_inversion _ _ _ _ _ _ _ _ Hloop pre request post Hlog
              (Nat.le_0_l _))
    as [fuel_i [messages_i [stepCount_i [Hreq Hfrom]]]].
  exists ended, fuel_i, messages_i, stepCount_i. repeat split; assumption.
Qed.



(** C8.  In [generateText], whenever a request of the run is answered with
    a non-2xx response, the call throws the error whose message is
    ["OpenRouter API error: "] followed by the body, and that request is the
    last thing the run did: nothing is retried.  In [generateObject] the
    same error is thrown after the single request. *)
Theorem C8_api_error_is_thrown_not_retried :
  (forall host options fuel outcome log pre request post body,
      generateText host options fuel = Some (outcome, log) ->
      log = pre ++ EvFetch request :: post ->
      fetch host pre request = Return (NotOk body) ->
      outcome = Throw (Error (String.append "OpenRouter API error: " body))
      /\ post = [])
  /\ (forall host options body,
         fetch host [] (object_request host options) = Return (NotOk body) ->
         generateObject host options
         = (Throw (Error (String.append "OpenRouter API error: " body)),
            [EvFetch (object_request host options)])).
Proof.
  split.
  - intros host options fuel outcome log pre request post body Hrun Hlog Hfetch.
    destruct (generateText_at_request _ _ _ _ _ _ _ _ Hrun Hlog)
      as [ended [fuel_i [messages_i [stepCount_i [Hreq [Hfrom Hout]]]]]].
    subst request. rewrite loop_S in Hfrom.
    unfold iteration, bind at 1, await_fetch in Hfrom. rewrite Hfetch in Hfrom.
    unfold throw in Hfrom. injection Hfrom as <- Hend. split; [exact Hout|].
    rewrite Hlog in Hend. apply app_inv_head in Hend.
    injection Hend as Hend. now symmetry.
  - intros host options body Hfetch.
    unfold generateObject, bind, await_fetch. now rewrite Hfetch.
Qed.

(** C8 at an endpoint that answers every request with status 429. *)
Lemma C8_witness :
  (exists outcome log,
      generateText (scripted_host (fun _ => Return (NotOk "rate limited")))
                   (example_options None) 10
      = Some (outcome, log)
      /\ outcome = Throw (Error "OpenRouter API error: rate limited")
      /\ round_trips log = 1%nat)
  /\ generateObject (scripted_host (fun _ => Return (NotOk "rate limited")))
                    example_object_options
     = (Throw (Error "OpenRouter API error: rate limited"),
        [EvFetch (object_request
                    (scripted_host (fun _ => Return (NotOk "rate limited")))
                    example_object_options)]).
Proof.
  split.
  - eexists _, _. split; [reflexivity|]. split; [|reflexivity].
    exact (proj1 (proj1 C8_api_error_is_thrown_not_retried
                    (scripted_host (fun _ => Return (NotOk "rate limited")))
                    (example_options None) 10%nat _ _ [] _ []
                    "rate limited" eq_refl eq_refl eq_refl)).
  - exact (proj2 C8_api_error_is_thrown_not_retried
             (scripted_host (fun _ => Return (NotOk "rate limited")))
             example_object_options "rate limited" eq_refl).
Defined.




(* ================================================================== *)
(** ** [generateText]: the returned text *)

Lemma nth_error_last {A : Type} (l : list A) (x : A) :
  nth_error (l ++ [x]) (length (l ++ [x]) - 1) = Some x.
Proof.
  rewrite length_app. simpl length.
  replace (length l + 1 - 1)%nat with (length l) by lia.
  rewrite nth_error_app2 by lia. now rewrite Nat.sub_diag.
Qed.

Lemma final_text_last (earlier : list Message) (lastMessage : Message) :
  final_text (earlier ++ [lastMessage])
  = Return (if Role_eqb (role lastMessage) assistant
            then content lastMessage else Text "").
Proof. unfold final_text. now rewrite nth_error_last. Qed.

Lemma Role_eqb_eq (a b : Role) : Role_eqb a b = true <-> a = b.
Proof. destruct a, b; simpl; split; congruence. Qed.

Lemma registered_tools_get (tools : option (list (string * ToolDefinition)))
      (toolName : string) :
  registered tools toolName = true ->
  exists toolDef, tools_get tools toolName = OwnTool toolDef.
Proof.
  unfold registered, tools_get. destruct tools as [own|]; [|discriminate].
  destruct (obj_get own toolName) as [toolDef|]; [|discriminate].
  intros _. now exists toolDef.
Qed.

(** A call to an unknown tool whose arguments are JSON is skipped: nothing
    is appended, nothing is done, nothing is thrown. *)
Lemma run_tool_call_not_found (host : Host) (options : GenerateTextOptions)
      (messages : list Message) (toolCall : ToolCall) (log : Log) :
  (exists toolArgs, JSON_parse host (call_arguments toolCall) = Some toolArgs) ->
  tools_get (tools options) (call_name toolCall) = NotFound ->
  run_tool_call host options messages toolCall log = (Return messages, log).
Proof.
  intros [toolArgs Hargs] Hget. unfold run_tool_call. now rewrite Hargs, Hget.
Qed.

Section Registered.

Variable host : Host.
Variable options : GenerateTextOptions.

Lemma run_tool_call_registered (messages messages' : list Message)
      (toolCall : ToolCall) (log log' : Log) :
  registered (tools options) (call_name toolCall) = true ->
  run_tool_call host options messages toolCall log = (Return messages', log') ->
  exists answer, messages' = messages ++ [answer] /\ tool_role answer.
Proof.
  intros Hreg Hrun. destruct (registered_tools_get _ _ Hreg) as [toolDef Hget].
  unfold run_tool_call in Hrun. rewrite Hget in Hrun.
  destruct (JSON_parse host (call_arguments toolCall)) as [toolArgs|];
    [|discriminate].
  unfold bind, await_execute in Hrun.
  destruct (execute toolDef log toolArgs) as [result|e]; [|discriminate].
  injection Hrun as <- _. eexists. split; reflexivity.
Qed.

(** When the calls of a reply all return and one of them names a registered
    tool, at least one tool message was appended. *)
Lemma run_tool_calls_registered (toolCall : ToolCall) :
  registered (tools options) (call_name toolCall) = true ->
  forall (calls : list ToolCall) (messages messages' : list Message)
         (log log' : Log),
    In toolCall calls ->
    run_tool_calls host options messages calls log = (Return messages', log') ->
    exists added, messages' = messages ++ added
                  /\ added <> []
                  /\ Forall tool_role added.
Proof.
  intros Hreg. induction calls as [|call rest IH];
    intros messages messages' log log' Hin Hrun; [contradiction|].
  simpl in Hrun. unfold bind at 1 in Hrun.
  destruct (run_tool_call_cases host options messages call log)
    as [outcome [execs [Hcall [_ Hout]]]].
  rewrite Hcall in Hrun. destruct outcome as [messages1|e]; [|discriminate].
  destruct Hout as [added1 [-> [Hroles1 _]]].
  destruct (run_tool_calls_cases host options rest (messages ++ added1)
              (log ++ execs)) as [outcome2 [execs2 [Hrest [_ Hout2]]]].
  destruct Hin as [->|Hin].
  - rewrite Hrest in Hrun. injection Hrun as -> _.
    destruct Hout2 as [added2 [-> [Hroles2 _]]].
    destruct (run_tool_call_registered _ _ _ _ _ Hreg Hcall)
      as [answer [Hanswer _]].
    apply app_inv_head in Hanswer. subst added1.
    exists ([answer] ++ added2). rewrite app_assoc.
    split; [reflexivity|]. split; [discriminate|].
    apply Forall_app. now split.
  - destruct (IH _ _ _ _ Hin Hrun) as [added2 [-> [Hne Hroles2]]].
    exists (added1 ++ added2). rewrite app_assoc.
    split; [reflexivity|]. split.
    + intros Hnil. apply app_eq_nil in Hnil. now destruct Hnil.
    + apply Forall_app. now split.
Qed.

End Registered.

(** C9.  When the loop of [generateText] ends without throwing, the
    transcript has a last entry and the call returns [{text}] where [text]
    is the content of that entry if its role is assistant, and the empty
    string otherwise. *)
Theorem C9_text_is_content_of_last_assistant_entry :
  forall host options fuel final stepCount log,
    transcript host options fuel = Some (Return (final, stepCount), log) ->
    exists earlier lastMessage text,
      final = earlier ++ [lastMessage]
      /\ generateText host options fuel = Some (Return text, log)
      /\ (role lastMessage = assistant -> text = content lastMessage)
      /\ (role lastMessage <> assistant -> text = Text "").
Proof.
  intros host options fuel final stepCount log Hrun.
  destruct (loop_last_pass _ _ _ _ _ _ _ _ _ Hrun)
    as [pre [messages_i [reply [added [execs [_ [_ [_ [Hfinal _]]]]]]]]].
  assert (Hne : final <> []).
  { rewrite Hfinal. intros Hnil. apply app_eq_nil in Hnil.
    destruct Hnil; discriminate. }
  destruct (exists_last Hne) as [earlier [lastMessage Hlast]].
  exists earlier, lastMessage,
    (if Role_eqb (role lastMessage) assistant
     then content lastMessage else Text "").
  split; [exact Hlast|]. split.
  - rewrite (generateText_of_transcript _ _ _ _ _ _ Hrun), Hlast.
    now rewrite final_text_last.
  - split.
    + intros Hrole. now rewrite Hrole.
    + intros Hrole. destruct (Role_eqb (role lastMessage) assistant) eqn:E;
        [|reflexivity].
      apply Role_eqb_eq in E. contradiction.
Qed.

(** C9 at an endpoint that requests the registered tool once and then
    answers [done]. *)
Lemma C9_witness :
  exists log,
    generateText (calls_once "search" "{}") (example_options None) 10
    = Some (Return (Text "done"), log).
Proof.
  destruct (C9_text_is_content_of_last_assistant_entry
              (calls_once "search" "{}") (example_options None) 10%nat
              _ _ _ eq_refl)
    as [earlier [lastMessage [text [Hfinal [Hrun [Hyes _]]]]]].
  change ([system_message "You are a helpful assistant.";
           user_message "Find it.";
           assistant_call "search" "{}";
           tool_message (mkToolCall "call_1" "search" "{}") (Some "{}")]
            ++ [assistant_text "done"] = earlier ++ [lastMessage]) in Hfinal.
  apply app_inj_tail in Hfinal. destruct Hfinal as [_ <-].
  rewrite (Hyes eq_refl) in Hrun. eexists. exact Hrun.
Defined.

(** C10.  When the loop ends without throwing and the reply to the last
    request of the run asked for at least one registered tool (so that the
    loop ended through [stopWhen] or the ceiling, right after that tool
    ran), the last transcript entry is a tool message and the call returns
    the empty text. *)
Theorem C10_text_is_empty_after_a_tool_turn :
  forall host options fuel final stepCount log pre request execs reply calls
         toolCall,
    transcript host options fuel = Some (Return (final, stepCount), log) ->
    log = pre ++ EvFetch request :: execs ->
    quiet execs ->
    fetch host pre request = Return (Ok reply) ->
    tool_calls reply = Some calls ->
    In toolCall calls ->
    registered (tools options) (call_name toolCall) = true ->
    (exists earlier lastMessage,
        final = earlier ++ [lastMessage] /\ role lastMessage = tool)
    /\ generateText host options fuel = Some (Return (Text ""), log).
Proof.
  intros host options fuel final stepCount log pre request execs reply calls
         toolCall Hrun Hlog Hquiet Hfetch Hcalls Hin Hreg.
  assert (Hlast : exists earlier lastMessage,
             final = earlier ++ [lastMessage] /\ role lastMessage = tool).
  { unfold transcript in Hrun.
    destruct (loop_fetch_inversion _ _ _ _ _ _ _ _ Hrun pre request execs Hlog
                (Nat.le_0_l _))
      as [fuel_i [messages_i [stepCount_i [-> Hfrom]]]].
    rewrite loop_S in Hfrom.
    unfold iteration, bind at 1, await_fetch in Hfrom.
    rewrite Hfetch, Hcalls in Hfrom.
    destruct calls as [|call rest]; [contradiction|].
    unfold bind at 1 in Hfrom. unfold bind at 1 in Hfrom.
    destruct (run_tool_calls_cases host options (call :: rest)
                (messages_i ++ [reply])
                (pre ++ [EvFetch (text_request host options messages_i)]))
      as [outcome [execs1 [Hcallsrun _]]].
    rewrite Hcallsrun in Hfrom.
    destruct outcome as [messages'|e]; [|discriminate].
    destruct (run_tool_calls_registered host options toolCall Hreg
                _ _ _ _ _ Hin Hcallsrun) as [added [-> [Hne Hroles]]].
    unfold ret in Hfrom.
    destruct (if 10 <=? stepCount_i + 1 then true
              else stop_requested options (stepCount_i + 1)).
    - injection Hfrom as <- _ _.
      destruct (exists_last Hne) as [front [lastMessage ->]].
      exists ((messages_i ++ [reply]) ++ front), lastMessage.
      split; [now rewrite app_assoc|].
      apply Forall_app in Hroles. destruct Hroles as [_ Hroles].
      now inversion Hroles.
    - exfalso.
      destruct (loop_extends _ _ _ _ _ _ _ _ Hfrom) as [more [Hmore Hrounds]].
      rewrite Hlog, <- !app_assoc in Hmore. apply app_inv_head in Hmore.
      simpl in Hmore. injection Hmore as Hmore.
      pose proof (round_trips_quiet _ Hquiet) as Hzero.
      rewrite Hmore, round_trips_app in Hzero. lia. }
  split; [exact Hlast|].
  destruct Hlast as [earlier [lastMessage [Hfinal Hrole]]].
  rewrite (generateText_of_transcript _ _ _ _ _ _ Hrun), Hfinal.
  now rewrite final_text_last, Hrole.
Qed.

(** C10 at the endpoint that requests the registered tool [search] on
    every reply, with [stepCountIs(2)]. *)
Lemma C10_witness :
  exists log,
    generateText (always_calls "search" "{}")
                 (example_options (Some (stepCountIs 2))) 10
    = Some (Return (Text ""), log).
Proof.
  eexists.
  refine (proj2 (C10_text_is_empty_after_a_tool_turn
                   (always_calls "search" "{}")
                   (example_options (Some (stepCountIs 2))) 10%nat
                   _ _ _
                   [EvFetch (text_request (always_calls "search" "{}")
                                          (example_options (Some (stepCountIs 2)))
                                          (initial_messages
                                             (example_options (Some (stepCountIs 2)))));
                    EvExecute "search" (JObj [])]
                   _ [EvExecute "search" (JObj [])]
                   (assistant_call "search" "{}")
                   [mkToolCall "call_1" "search" "{}"]
                   (mkToolCall "call_1" "search" "{}")
                   eq_refl eq_refl _ eq_refl eq_refl (or_introl eq_refl) eq_refl)).
  repeat constructor.
Defined.

(* ================================================================== *)
(** ** [generateObject] *)

(** C3, as stated, fails where validation changes the value: the content
    [{"name":"X","extra":1}] parses to an object with two keys, and what
    [generateObject] returns against [{name: String}] is the validator's
    output [{name: "X"}], not the parsed value. *)
Lemma C3_counterexample :
  JSON_parse (always_replies (assistant_text name_X_extra_text))
             (ToString (content (assistant_text name_X_extra_text)))
  = Some (JObj [("name", JStr "X"); ("extra", JNum (inject_Z 1))])
  /\ fst (generateObject (always_replies (assistant_text name_X_extra_text))
                         example_object_options)
     = Return (JObj [("name", JStr "X")]).
Proof. split; reflexivity. Qed.

(** C3, amended.  When the endpoint replies, [generateObject] parses the
    reply content as JSON and hands the parsed value to [schema.parse]: it
    returns [{object}] exactly when the content is JSON that validates,
    [object] being what [schema.parse] returns for the parsed value; it
    throws the [SyntaxError] of [JSON.parse] when the content is not JSON;
    and otherwise it throws exactly what [schema.parse] throws, unchanged,
    the [ZodError] with its issues in particular. *)
Theorem C3_generateObject_parses_then_validates :
  forall host options reply,
    fetch host [] (object_request host options) = Return (Ok reply) ->
    let text := ToString (content reply) in
    let outcome := fst (generateObject host options) in
    (forall object,
        outcome = Return object <->
        exists parsed, JSON_parse host text = Some parsed
                       /\ schema_parse host (schema options) parsed
                          = Return object)
    /\ (JSON_parse host text = None -> outcome = Throw SyntaxError)
    /\ (forall e,
           outcome = Throw e <->
           (JSON_parse host text = None /\ e = SyntaxError)
           \/ exists parsed, JSON_parse host text = Some parsed
                             /\ schema_parse host (schema options) parsed
                                = Throw e)
    /\ (forall parsed issues,
           JSON_parse host text = Some parsed ->
           schema_parse host (schema options) parsed = Throw (ZodError issues) ->
           outcome = Throw (ZodError issues)).
Proof.
  intros host options reply Hfetch text outcome.
  assert (Hout : outcome
                 = match JSON_parse host text with
                   | None => Throw SyntaxError
                   | Some parsed => schema_parse host (schema options) parsed
                   end).
  { subst outcome text. unfold generateObject, bind, await_fetch.
    rewrite Hfetch.
    destruct (JSON_parse host (ToString (content reply))) as [parsed|];
      [|reflexivity].
    destruct (schema_parse host (schema options) parsed); reflexivity. }
  rewrite Hout. clear Hout. split; [|split; [|split]].
  - intros object. split.
    + destruct (JSON_parse host text) as [parsed|]; [|discriminate].
      intros H. now exists parsed.
    + intros [parsed [-> H]]. exact H.
  - intros ->. reflexivity.
  - intros e. split.
    + destruct (JSON_parse host text) as [parsed|].
      * intros H. right. now exists parsed.
      * intros H. injection H as <-. now left.
    + intros [[-> ->] | [parsed [-> H]]]; [reflexivity | exact H].
  - intros parsed issues -> H. exact H.
Qed.

(** C3 at endpoints that reply [{"name":"X"}], [{"name":5}] and a
    sentence, validated by the model of zod against [{name: String}]. *)
Lemma C3_witness :
  fst (generateObject (always_replies (assistant_text name_X_text))
                      example_object_options)
  = Return (JObj [("name", JStr "X")])
  /\ fst (generateObject (always_replies (assistant_text name_5_text))
                         example_object_options)
     = Throw (ZodError [mkIssue "invalid_type" [PKey "name"]])
  /\ fst (generateObject (always_replies (assistant_text "Sure, here you go"))
                         example_object_options)
     = Throw SyntaxError.
Proof.
  split; [|split].
  - apply (proj1 (C3_generateObject_parses_then_validates
                    (always_replies (assistant_text name_X_text))
                    example_object_options (assistant_text name_X_text) eq_refl)
                 (JObj [("name", JStr "X")])).
    exists (JObj [("name", JStr "X")]). split; reflexivity.
  - apply (proj2 (proj2 (proj2 (C3_generateObject_parses_then_validates
                    (always_replies (assistant_text name_5_text))
                    example_object_options (assistant_text name_5_text) eq_refl)))
                 (JObj [("name", JNum (inject_Z 5))])
                 [mkIssue "invalid_type" [PKey "name"]]);
      reflexivity.
  - apply (proj1 (proj2 (C3_generateObject_parses_then_validates
                    (always_replies (assistant_text "Sure, here you go"))
                    example_object_options (assistant_text "Sure, here you go")
                    eq_refl))).
    reflexivity.
Defined.

(* ================================================================== *)
(** ** Tool names the caller did not register *)

(** A call whose name [tools] only inherits is not skipped: the inherited
    value passes [if (tool)] and calling its missing [execute] throws. *)
Lemma run_tool_call_inherited (host : Host) (options : GenerateTextOptions)
      (messages : list Message) (toolCall : ToolCall) (log : Log) :
  (exists toolArgs, JSON_parse host (call_arguments toolCall) = Some toolArgs) ->
  tools_get (tools options) (call_name toolCall) = InheritedValue ->
  run_tool_call host options messages toolCall log
  = (Throw (TypeError "tool.execute is not a function"), log).
Proof.
  intros [toolArgs Hargs] Hget. unfold run_tool_call. now rewrite Hargs, Hget.
Qed.

(** An endpoint that keeps requesting the unknown tool [lookup] is asked 10
    times; no tool runs, no tool message is appended, nothing is thrown. *)
Example unknown_tool_is_skipped :
  option_map (fun run => (fst run, length (snd run)))
             (generateText (always_calls "lookup" "{}") (example_options None) 10)
  = Some (Return Null, 10%nat)
  /\ option_map (fun run => match fst run with
                            | Return (final, stepCount) =>
                                (existsb (fun m => Role_eqb (role m) tool) final,
                                 stepCount)
                            | Throw _ => (true, 0)
                            end)
                (transcript (always_calls "lookup" "{}") (example_options None) 10)
     = Some (false, 10).
Proof. split; reflexivity. Qed.

(** C4 at a failing input.  The endpoint requests [constructor] with the
    arguments [{}]; the caller registered only [search].  The lookup
    [tools?.[toolName]] finds the property every object inherits, the test
    [if (tool)] passes, and [tool.execute(..)] throws a [TypeError]: the
    call to [generateText] is aborted at its first reply. *)
Theorem C4_inherited_name_aborts :
  registered (tools (example_options None)) "constructor" = false
  /\ JSON_parse (always_calls "constructor" "{}") "{}" = Some (JObj [])
  /\ option_map fst (generateText (always_calls "constructor" "{}")
                                  (example_options None) 10)
     = Some (Throw (TypeError "tool.execute is not a function")).
Proof. repeat split. Qed.

(* ================================================================== *)
(** ** [generateText]: the transcript and the log side by side *)

Section Accounting.

Variable host : Host.
Variable options : GenerateTextOptions.

(** A loop that returns added one message for each event it logged, and
    one step for each request. *)
Lemma loop_accounting :
  forall fuel messages stepCount log final stepCount' log',
    loop host options fuel messages stepCount log
    = Some (Return (final, stepCount'), log') ->
    exists added more,
      final = messages ++ added
      /\ log' = log ++ more
      /\ length added = length more
      /\ stepCount' = stepCount + Z.of_nat (round_trips more)
      /\ (stepCount < 10 -> stepCount' <= 10).
Proof.
  induction fuel as [|fuel IH];
    intros messages stepCount log final stepCount' log' H; [discriminate|].
  rewrite loop_S in H.
  destruct (iteration_cases host options messages stepCount log)
    as [o [execs [Hit [Hquiet Hout]]]].
  rewrite Hit in H.
  assert (Hone : round_trips (EvFetch (text_request host options messages) :: execs)
                 = 1%nat).
  { change (S (round_trips execs) = 1%nat). now rewrite round_trips_quiet. }
  destruct o as [[[messages1 stepCount1] shouldStop]|e]; [|discriminate].
  destruct Hout as [-> [Hceiling [reply [added [_ [-> [_ Hlen]]]]]]].
  destruct shouldStop.
  - injection H as <- <- <-.
    exists (reply :: added), (EvFetch (text_request host options messages) :: execs).
    repeat split; try reflexivity.
    + simpl. now rewrite Hlen.
    + rewrite Hone. reflexivity.
    + lia.
  - destruct (IH _ _ _ _ _ _ H)
      as [added2 [more2 [-> [-> [Hlen2 [-> Hbound]]]]]].
    exists ((reply :: added) ++ added2),
      ((EvFetch (text_request host options messages) :: execs) ++ more2).
    rewrite <- !app_assoc. repeat split; try reflexivity.
    + rewrite !length_app. simpl. lia.
    + rewrite round_trips_app, Hone. lia.
    + intros _. apply Hbound. now apply Hceiling.
Qed.

(** [loop_fetch_inversion] with an invariant of the loop carried to the
    pass that sends the request. *)
Lemma loop_fetch_inversion_with
      (Inv : list Message -> Z -> Log -> Prop) :
  (forall messages stepCount log messages' stepCount' log',
      Inv messages stepCount log ->
      iteration host options messages stepCount log
      = (Return (messages', stepCount', false), log') ->
      Inv messages' stepCount' log') ->
  forall fuel messages stepCount log outcome log',
    Inv messages stepCount log ->
    loop host options fuel messages stepCount log = Some (outcome, log') ->
    forall pre request post,
      log' = pre ++ EvFetch request :: post ->
      (length log <= length pre)%nat ->
      exists fuel_i messages_i stepCount_i,
        Inv messages_i stepCount_i pre
        /\ request = text_request host options messages_i
        /\ loop host options (S fuel_i) messages_i stepCount_i pre
           = Some (outcome, log').
Proof.
  intros Hstep.
  induction fuel as [|fuel IH];
    intros messages stepCount log outcome log' Hinv H pre request post Hlog Hlen;
    [discriminate|].
  pose proof H as Hwhole.
  rewrite loop_S in H.
  destruct (iteration_cases host options messages stepCount log)
    as [o [execs [Hit [Hquiet _]]]].
  rewrite Hit in H.
  set (request0 := text_request host options messages) in *.
  assert (Hplace : forall more,
             log' = (log ++ EvFetch request0 :: execs) ++ more ->
             (pre = log /\ request = request0)
             \/ (length (log ++ EvFetch request0 :: execs) <= length pre)%nat).
  { intros more Hmore. rewrite Hlog, <- app_assoc in Hmore. symmetry in Hmore.
    destruct (split_after_prefix _ _ _ _ _ Hmore Hlen) as [mid [Hpre Hrest]].
    destruct mid as [|e mid].
    - left. rewrite app_nil_r in Hpre. simpl in Hrest. injection Hrest as Hreq _.
      now split.
    - right. simpl in Hrest. injection Hrest as _ Hrest.
      destruct (Nat.le_gt_cases (length execs) (length mid)) as [Hle|Hgt].
      + rewrite Hpre, !length_app. simpl. lia.
      + pose proof (found_in_prefix _ _ _ _ _ Hrest Hgt) as Hin.
        unfold quiet in Hquiet. rewrite Forall_forall in Hquiet.
        specialize (Hquiet _ Hin). discriminate. }
  assert (Hhere : (pre = log /\ request = request0) ->
                  exists fuel_i messages_i stepCount_i,
                    Inv messages_i stepCount_i pre
                    /\ request = text_request host options messages_i
                    /\ loop host options (S fuel_i) messages_i stepCount_i pre
                       = Some (outcome, log')).
  { intros [-> ->]. exists fuel, messages, stepCount. repeat split; assumption. }
  assert (Hlast : log' = log ++ EvFetch request0 :: execs ->
                  exists fuel_i messages_i stepCount_i,
                    Inv messages_i stepCount_i pre
                    /\ request = text_request host options messages_i
                    /\ loop host options (S fuel_i) messages_i stepCount_i pre
                       = Some (outcome, log')).
  { intros Hend. destruct (Hplace []) as [Hp|Hp].
    - now rewrite app_nil_r.
    - now apply Hhere.
    - rewrite <- Hend, Hlog, length_app in Hp. simpl in Hp. lia. }
  destruct o as [[[messages' stepCount'] [|]]|e].
  - injection H as _ <-. now apply Hlast.
  - destruct (loop_extends _ _ _ _ _ _ _ _ H) as [more [Hmore _]].
    destruct (Hplace more Hmore) as [Hp|Hp]; [now apply Hhere|].
    apply (IH _ _ _ _ _ (Hstep _ _ _ _ _ _ Hinv Hit) H pre request post Hlog Hp).
  - injection H as _ <-. now apply Hlast.
Qed.

End Accounting.

Section Recording.

Variable host : Host.
Variable options : GenerateTextOptions.

Lemma recorded_app :
  forall pre events1 added1,
    recorded host options pre events1 added1 ->
    forall events2 added2,
      recorded host options (pre ++ events1) events2 added2 ->
      recorded host options pre (events1 ++ events2) (added1 ++ added2).
Proof.
  induction 1 as [pre
                 | pre request events reply added Hfetch _ IH
                 | pre toolName toolArgs events toolDef result id added
                       Hget Hexec _ IH];
    intros events2 added2 H2.
  - now rewrite app_nil_r in H2.
  - simpl. apply recorded_fetch; [exact Hfetch|]. apply IH.
    now rewrite <- app_assoc.
  - simpl. eapply recorded_execute; [exact Hget | exact Hexec |]. apply IH.
    now rewrite <- app_assoc.
Qed.

Lemma recorded_length :
  forall pre events added,
    recorded host options pre events added -> length added = length events.
Proof. induction 1; simpl; congruence. Qed.

Lemma run_tool_call_recorded (messages messages' : list Message)
      (call : ToolCall) (log log' : Log) :
  run_tool_call host options messages call log = (Return messages', log') ->
  exists events added,
    log' = log ++ events
    /\ messages' = messages ++ added
    /\ recorded host options log events added.
Proof.
  unfold run_tool_call.
  destruct (JSON_parse host (call_arguments call)) as [toolArgs|];
    [|discriminate].
  destruct (tools_get (tools options) (call_name call)) as [toolDef| |] eqn:Hget;
    [|discriminate|].
  - unfold bind, await_execute.
    destruct (execute toolDef log toolArgs) as [result|e] eqn:Hexec;
      [|discriminate].
    intros H. injection H as <- <-. eexists [_], [_].
    split; [reflexivity|]. split; [reflexivity|].
    unfold tool_message.
    eapply recorded_execute; [exact Hget | exact Hexec | constructor].
  - intros H. injection H as <- <-. exists [], []. rewrite !app_nil_r.
    repeat split. constructor.
Qed.

Lemma run_tool_calls_recorded :
  forall calls messages messages' log log',
    run_tool_calls host options messages calls log = (Return messages', log') ->
    exists events added,
      log' = log ++ events
      /\ messages' = messages ++ added
      /\ recorded host options log events added.
Proof.
  induction calls as [|call rest IH]; intros messages messages' log log' Hrun.
  - injection Hrun as <- <-. exists [], []. rewrite !app_nil_r.
    repeat split. constructor.
  - simpl in Hrun. unfold bind at 1 in Hrun.
    destruct (run_tool_call host options messages call log)
      as [[messages1|e] log1] eqn:Hcall; [|discriminate].
    destruct (run_tool_call_recorded _ _ _ _ _ Hcall)
      as [events1 [added1 [-> [-> Hrec1]]]].
    destruct (IH _ _ _ _ Hrun) as [events2 [added2 [-> [-> Hrec2]]]].
    exists (events1 ++ events2), (added1 ++ added2). rewrite !app_assoc.
    repeat split. now apply recorded_app.
Qed.

Lemma iteration_recorded :
  forall messages stepCount log messages' stepCount' shouldStop log',
    iteration host options messages stepCount log
    = (Return (messages', stepCount', shouldStop), log') ->
    exists events added,
      log' = log ++ events
      /\ messages' = messages ++ added
      /\ recorded host options log events added.
Proof.
  intros messages stepCount log messages' stepCount' shouldStop log' Hit.
  unfold iteration, bind at 1, await_fetch in Hit.
  destruct (fetch host log (text_request host options messages))
    as [[body|reply|unreadable]|e0] eqn:Hfetch; try discriminate.
  assert (Hnone : forall events added,
             recorded host options
               (log ++ [EvFetch (text_request host options messages)])
               events added ->
             recorded host options log
               (EvFetch (text_request host options messages) :: events)
               (reply :: added)).
  { intros events added. now apply recorded_fetch. }
  destruct (tool_calls reply) as [[|call calls]|].
  - unfold bind, ret in Hit. injection Hit as <- _ _ <-.
    eexists [_], [_]. repeat split. apply Hnone. constructor.
  - unfold bind at 1 in Hit. unfold bind at 1 in Hit.
    destruct (run_tool_calls host options (messages ++ [reply]) (call :: calls)
                (log ++ [EvFetch (text_request host options messages)]))
      as [[messages1|e1] log1] eqn:Hrun; [|discriminate].
    unfold ret in Hit. injection Hit as <- _ _ <-.
    destruct (run_tool_calls_recorded _ _ _ _ _ Hrun)
      as [events [added [-> [-> Hrec]]]].
    exists (EvFetch (text_request host options messages) :: events),
      (reply :: added).
    rewrite <- !app_assoc. repeat split. now apply Hnone.
  - unfold bind, ret in Hit. injection Hit as <- _ _ <-.
    eexists [_], [_]. repeat split. apply Hnone. constructor.
Qed.

Lemma loop_recorded :
  forall fuel messages stepCount log final stepCount' log',
    loop host options fuel messages stepCount log
    = Some (Return (final, stepCount'), log') ->
    exists events added,
      log' = log ++ events
      /\ final = messages ++ added
      /\ recorded host options log events added.
Proof.
  induction fuel as [|fuel IH];
    intros messages stepCount log final stepCount' log' H; [discriminate|].
  rewrite loop_S in H.
  destruct (iteration host options messages stepCount log)
    as [[[[messages1 stepCount1] [|]]|e0] log1] eqn:Hit; [| |discriminate].
  - injection H as <- _ <-. exact (iteration_recorded _ _ _ _ _ _ _ Hit).
  - destruct (iteration_recorded _ _ _ _ _ _ _ Hit)
      as [events1 [added1 [-> [-> Hrec1]]]].
    destruct (IH _ _ _ _ _ _ H) as [events2 [added2 [-> [-> Hrec2]]]].
    exists (events1 ++ events2), (added1 ++ added2). rewrite !app_assoc.
    repeat split. now apply recorded_app.
Qed.

End Recording.

Section Requests.

Variable host : Host.
Variable options : GenerateTextOptions.

Lemma in_step_iteration :
  forall messages stepCount log messages' stepCount' log',
    in_step options messages stepCount log ->
    iteration host options messages stepCount log
    = (Return (messages', stepCount', false), log') ->
    in_step options messages' stepCount' log'.
Proof.
  intros messages stepCount log messages' stepCount' log' [added [-> Hlen]] Hit.
  destruct (iteration_cases host options (initial_messages options ++ added)
              stepCount log) as [o [execs [Hit' [_ Hout]]]].
  rewrite Hit in Hit'. injection Hit' as <- ->.
  destruct Hout as [_ [_ [reply [added' [_ [-> [_ Hlen']]]]]]].
  exists (added ++ reply :: added'). rewrite app_assoc. split; [reflexivity|].
  rewrite !length_app. simpl. lia.
Qed.

Lemma request_in_step :
  forall fuel outcome log pre request post,
    loop host options fuel (initial_messages options) 0 [] = Some (outcome, log) ->
    log = pre ++ EvFetch request :: post ->
    exists fuel_i added stepCount_i,
      length added = length pre
      /\ request = text_request host options (initial_messages options ++ added)
      /\ loop host options (S fuel_i) (initial_messages options ++ added)
              stepCount_i pre
         = Some (outcome, log).
Proof.
  intros fuel outcome log pre request post Hloop Hlog.
  destruct (loop_fetch_inversion_with host options (in_step options)
              in_step_iteration
              fuel (initial_messages options) 0 [] outcome log)
    with (pre := pre) (request := request) (post := post)
    as [fuel_i [messages_i [stepCount_i [[added [-> Hlen]] [Hreq Hfrom]]]]].
  - exists []. now rewrite app_nil_r.
  - exact Hloop.
  - exact Hlog.
  - apply Nat.le_0_l.
  - exists fuel_i, added, stepCount_i. repeat split; assumption.
Qed.

End Requests.

(** X1.  When the loop returns, the transcript is the initial messages
    followed by exactly one message for each event of the run, in the order
    of the events: for each request the message the endpoint replied with,
    for each execution the tool message with the tool's name and the
    [JSON.stringify] of its result.  The step count is the number of
    requests, between 1 and 10. *)
Theorem transcript_has_one_message_per_event :
  forall host options fuel final stepCount log,
    transcript host options fuel = Some (Return (final, stepCount), log) ->
    exists added,
      final = initial_messages options ++ added
      /\ recorded host options [] log added
      /\ length added = length log
      /\ stepCount = Z.of_nat (round_trips log)
      /\ 1 <= stepCount <= 10.
Proof.
  intros host options fuel final stepCount log Hrun. unfold transcript in Hrun.
  destruct (loop_accounting _ _ _ _ _ _ _ _ _ Hrun)
    as [added0 [more [Hfinal0 [Hlog [_ [Hcount Hbound]]]]]].
  destruct (loop_extends _ _ _ _ _ _ _ _ Hrun) as [more' [Hlog' Hone]].
  destruct (loop_recorded _ _ _ _ _ _ _ _ _ Hrun)
    as [events [added [Hevents [Hfinal Hrec]]]].
  simpl in Hlog, Hlog', Hevents. subst more more' events.
  exists added. split; [exact Hfinal|]. split; [exact Hrec|].
  split; [exact (recorded_length _ _ _ _ _ Hrec)|].
  split; [exact Hcount | lia].
Qed.

Lemma transcript_has_one_message_per_event_example :
  exists reply answer reply',
    option_map fst (transcript (calls_once "search" "{}")
                               (example_options None) 10)
    = Some (Return (initial_messages (example_options None)
                    ++ [reply; answer; reply'], 2))
    /\ role answer = tool /\ name answer = Some "search"
    /\ content answer = Text "{}".
Proof.
  destruct (transcript_has_one_message_per_event
              (calls_once "search" "{}") (example_options None) 10%nat
              _ _ _ eq_refl) as [added [Hfinal [Hrec _]]].
  inversion Hrec as [| ? ? ? reply added1 _ Hrec1 |]; subst.
  inversion Hrec1 as [| | ? ? ? ? toolDef result id added2 _ Hexec Hrec2]; subst.
  inversion Hrec2 as [| ? ? ? reply' added3 _ Hrec3 |]; subst.
  inversion Hrec3; subst.
  eexists _, _, _. rewrite <- Hfinal. repeat split.
Defined.

(** X2.  Every request of a run carries the initial messages followed by
    one message for each earlier event, and the same model, token limit,
    temperature, headers and tool manifest as every other request of the
    run: the manifest names the caller's tools in order, and is left out
    when there is none. *)
Theorem every_request_carries_the_transcript_so_far :
  forall host options fuel outcome log pre request post,
    generateText host options fuel = Some (outcome, log) ->
    log = pre ++ EvFetch request :: post ->
    exists added,
      length added = length pre
      /\ request = text_request host options (initial_messages options ++ added)
      /\ body_messages request = initial_messages options ++ added
      /\ body_model request = model options
      /\ body_response_format request = None
      /\ match tools options with
         | None | Some [] => body_tools request = None
         | Some own =>
             exists manifest,
               body_tools request = Some manifest
               /\ map function_name manifest = map fst own
         end.
Proof.
  intros host options fuel outcome log pre request post Hrun Hlog.
  destruct (generateText_inv _ _ _ _ _ Hrun) as [ended [Hloop _]].
  destruct (request_in_step host options _ _ _ _ _ _ Hloop Hlog)
    as [fuel_i [added [stepCount_i [Hlen [-> _]]]]].
  exists added. repeat split; try assumption.
  unfold text_request. simpl. destruct (tools options) as [[|[toolName toolDef] own]|];
    try reflexivity.
  eexists. split; [reflexivity|]. simpl. f_equal.
  induction own as [|[k v] own IH]; [reflexivity|]. simpl. now rewrite IH.
Qed.

Lemma every_request_carries_the_transcript_so_far_example :
  exists added manifest,
    length added = 2%nat
    /\ body_messages
         (text_request (always_calls "search" "{}") (example_options None)
            (initial_messages (example_options None) ++ added))
       = initial_messages (example_options None) ++ added
    /\ body_tools
         (text_request (always_calls "search" "{}") (example_options None)
            (initial_messages (example_options None) ++ added))
       = Some manifest
    /\ map function_name manifest = ["search"].
Proof.
  destruct (every_request_carries_the_transcript_so_far
              (always_calls "search" "{}") (example_options None) 10%nat
              _ _
              [EvFetch (text_request (always_calls "search" "{}")
                                     (example_options None)
                                     (initial_messages (example_options None)));
               EvExecute "search" (JObj [])]
              _ _ eq_refl eq_refl)
    as [added [Hlen [Hreq [Hmsgs [_ [_ [manifest [Htools Hnames]]]]]]]].
  exists added, manifest. rewrite <- Hreq. repeat split; assumption.
Defined.

(** X3.  The transcript only grows.  In a run that returns, every request
    was answered with a 2xx reply, and the returned transcript is the
    messages that request carried, then that reply, then one message for
    each later event. *)
Theorem sent_messages_are_kept :
  forall host options fuel final stepCount log pre request post,
    transcript host options fuel = Some (Return (final, stepCount), log) ->
    log = pre ++ EvFetch request :: post ->
    exists reply later,
      fetch host pre request = Return (Ok reply)
      /\ final = body_messages request ++ reply :: later
      /\ length later = length post.
Proof.
  intros host options fuel final stepCount log pre request post Hrun Hlog.
  unfold transcript in Hrun.
  destruct (request_in_step host options _ _ _ _ _ _ Hrun Hlog)
    as [fuel_i [added [stepCount_i [_ [-> Hfrom]]]]].
  destruct (loop_accounting _ _ _ _ _ _ _ _ _ Hfrom)
    as [grown [more [Hfinal [Hmore [Hlen _]]]]].
  rewrite Hlog in Hmore. apply app_inv_head in Hmore. subst more.
  rewrite loop_S in Hfrom.
  destruct (iteration_cases host options (initial_messages options ++ added)
              stepCount_i pre) as [o [execs [Hit [_ Hout]]]].
  rewrite Hit in Hfrom.
  destruct o as [[[messages1 stepCount1] shouldStop]|e]; [|discriminate].
  destruct Hout as [_ [_ [reply [added1 [Hfetch [-> _]]]]]].
  assert (Hgrown : exists later, grown = reply :: later).
  { destruct shouldStop.
    - injection Hfrom as Hfrom _ _. rewrite Hfinal in Hfrom.
      apply app_inv_head in Hfrom. now exists added1.
    - destruct (loop_accounting _ _ _ _ _ _ _ _ _ Hfrom)
        as [added2 [_ [Hfinal2 _]]].
      rewrite Hfinal in Hfinal2.
      rewrite <- (app_assoc (initial_messages options ++ added)
                            (reply :: added1) added2) in Hfinal2.
      apply app_inv_head in Hfinal2.
      simpl in Hfinal2. now exists (added1 ++ added2). }
  destruct Hgrown as [later ->].
  exists reply, later. split; [exact Hfetch|]. split; [exact Hfinal|].
  simpl in Hlen. now injection Hlen.
Qed.

Lemma sent_messages_are_kept_example :
  exists reply later,
    option_map fst (transcript (calls_once "search" "{}")
                               (example_options None) 10)
    = Some (Return (initial_messages (example_options None) ++ reply :: later, 2))
    /\ length later = 2%nat.
Proof.
  destruct (sent_messages_are_kept
              (calls_once "search" "{}") (example_options None) 10%nat
              _ _ _ [] _ _ eq_refl eq_refl) as [reply [later [_ [Hfinal Hlen]]]].
  exists reply, later. split; [|exact Hlen].
  change (body_messages _) with (initial_messages (example_options None)) in Hfinal.
  now rewrite <- Hfinal.
Defined.

(* ================================================================== *)
(** ** [generateText]: how a run ends *)

(** X4.  A reply that requests no tool ([tool_calls] absent or empty) ends
    the run at once, whatever [stopWhen] says: nothing follows that request,
    and the call returns the reply's content when its role is assistant,
    the empty string otherwise. *)
Theorem reply_without_tool_calls_ends_the_run :
  forall host options fuel outcome log pre request post reply,
    generateText host options fuel = Some (outcome, log) ->
    log = pre ++ EvFetch request :: post ->
    fetch host pre request = Return (Ok reply) ->
    tool_calls reply = None \/ tool_calls reply = Some [] ->
    post = []
    /\ outcome = Return (if Role_eqb (role reply) assistant
                         then content reply else Text "").
Proof.
  intros host options fuel outcome log pre request post reply Hrun Hlog Hfetch
         Hnone.
  destruct (generateText_at_request _ _ _ _ _ _ _ _ Hrun Hlog)
    as [ended [fuel_i [messages_i [stepCount_i [Hreq [Hfrom Hout]]]]]].
  subst request. rewrite loop_S in Hfrom.
  assert (Hit : iteration host options messages_i stepCount_i pre
                = (Return (messages_i ++ [reply], stepCount_i + 1, true),
                   pre ++ [EvFetch (text_request host options messages_i)])).
  { unfold iteration, bind at 1, await_fetch. rewrite Hfetch.
    destruct Hnone as [-> | ->]; unfold bind, ret;
      now destruct (10 <=? stepCount_i + 1). }
  rewrite Hit in Hfrom. injection Hfrom as <- Hend.
  rewrite Hlog in Hend. apply app_inv_head in Hend. injection Hend as Hend.
  split; [now symmetry|]. rewrite Hout. apply final_text_last.
Qed.

Lemma reply_without_tool_calls_ends_the_run_example :
  exists outcome log,
    generateText (scripted_host (fun _ => Return (Ok (assistant_text "Trip Planner"))))
                 (example_options (Some (fun _ => false))) 10
    = Some (outcome, log)
    /\ outcome = Return (Text "Trip Planner")
    /\ length log = 1%nat.
Proof.
  eexists _, _. split; [reflexivity|]. split; [|reflexivity].
  exact (proj2 (reply_without_tool_calls_ends_the_run
                  (scripted_host (fun _ => Return (Ok (assistant_text "Trip Planner"))))
                  (example_options (Some (fun _ => false))) 10%nat
                  _ _ [] _ [] (assistant_text "Trip Planner")
                  eq_refl eq_refl eq_refl (or_introl eq_refl))).
Defined.

(** X5.  When the promise of [fetch] itself rejects, [generateText] throws
    that very error and the failed request is the last thing the run did;
    [generateObject] throws it after its single request. *)
Theorem fetch_rejection_is_propagated :
  (forall host options fuel outcome log pre request post e,
      generateText host options fuel = Some (outcome, log) ->
      log = pre ++ EvFetch request :: post ->
      fetch host pre request = Throw e ->
      outcome = Throw e /\ post = [])
  /\ (forall host options e,
         fetch host [] (object_request host options) = Throw e ->
         generateObject host options
         = (Throw e, [EvFetch (object_request host options)])).
Proof.
  split.
  - intros host options fuel outcome log pre request post e Hrun Hlog Hfetch.
    destruct (generateText_at_request _ _ _ _ _ _ _ _ Hrun Hlog)
      as [ended [fuel_i [messages_i [stepCount_i [Hreq [Hfrom Hout]]]]]].
    subst request. rewrite loop_S in Hfrom.
    unfold iteration, bind at 1, await_fetch in Hfrom. rewrite Hfetch in Hfrom.
    injection Hfrom as <- Hend. split; [exact Hout|].
    rewrite Hlog in Hend. apply app_inv_head in Hend.
    injection Hend as Hend. now symmetry.
  - intros host options e Hfetch.
    unfold generateObject, bind, await_fetch. now rewrite Hfetch.
Qed.

Lemma fetch_rejection_is_propagated_example :
  (exists outcome log,
      generateText (scripted_host (fun _ => Throw (TypeError "fetch failed")))
                   (example_options None) 10
      = Some (outcome, log)
      /\ outcome = Throw (TypeError "fetch failed")
      /\ length log = 1%nat)
  /\ fst (generateObject (scripted_host (fun _ => Throw (TypeError "fetch failed")))
                         example_object_options)
     = Throw (TypeError "fetch failed").
Proof.
  split.
  - eexists _, _. split; [reflexivity|]. split; [|reflexivity].
    exact (proj1 (proj1 fetch_rejection_is_propagated
                    (scripted_host (fun _ => Throw (TypeError "fetch failed")))
                    (example_options None) 10%nat _ _ [] _ []
                    (TypeError "fetch failed") eq_refl eq_refl eq_refl)).
  - now rewrite (proj2 fetch_rejection_is_propagated
                   (scripted_host (fun _ => Throw (TypeError "fetch failed")))
                   example_object_options (TypeError "fetch failed") eq_refl).
Defined.

(** X6.  With [stopWhen = stepCountIs(n)], for every integer [n], against
    an endpoint that requests tools on every reply, the loop ends after
    exactly [max(1, min(n, 10))] turns: a count below 1 still lets the
    first turn run, a count above 10 is cut by the ceiling. *)
Theorem stepCountIs_is_clamped_between_1_and_10 :
  forall host options fuel count,
    stopWhen options = Some (stepCountIs count) ->
    (10 <= fuel)%nat ->
    requests_tools_forever host options ->
    exists final log,
      transcript host options fuel
      = Some (Return (final, Z.max 1 (Z.min count 10)), log)
      /\ round_trips log = Z.to_nat (Z.max 1 (Z.min count 10)).
Proof.
  intros host options fuel count Hstop Hfuel Hforever.
  assert (Hat : forall c, stop_requested options c = (c >=? count)).
  { intros c. unfold stop_requested. now rewrite Hstop. }
  set (last := Z.max 1 (Z.min count 10)).
  assert (Hlast : last = 10 \/ stop_requested options last = true).
  { rewrite Hat, Z.geb_leb. unfold last.
    destruct (Z.le_gt_cases 10 count); [left; lia | right; apply Z.leb_le; lia]. }
  destruct (@loop_forever host options Hforever last ltac:(unfold last; lia)
              Hlast (Z.to_nat last) ltac:(unfold last; lia)
              0 (initial_messages options) [] fuel)
    as [final [more [Hloop Hrounds]]].
  - unfold last. lia.
  - intros c Hc. rewrite Hat, Z.geb_leb. apply Z.leb_gt. unfold last in Hc. lia.
  - unfold last. lia.
  - exists final, more. split; [exact Hloop | exact Hrounds].
Qed.

Lemma stepCountIs_is_clamped_between_1_and_10_example :
  (exists final log,
      transcript (always_calls "search" "{}")
                 (example_options (Some (stepCountIs (-3)))) 10
      = Some (Return (final, 1), log) /\ round_trips log = 1%nat)
  /\ (exists final log,
         transcript (always_calls "search" "{}")
                    (example_options (Some (stepCountIs 25))) 10
         = Some (Return (final, 10), log) /\ round_trips log = 10%nat).
Proof.
  split.
  - apply (stepCountIs_is_clamped_between_1_and_10
             (always_calls "search" "{}")
             (example_options (Some (stepCountIs (-3)))) 10%nat (-3)).
    + reflexivity.
    + lia.
    + apply requests_tools_forever_always_calls.
  - apply (stepCountIs_is_clamped_between_1_and_10
             (always_calls "search" "{}")
             (example_options (Some (stepCountIs 25))) 10%nat 25).
    + reflexivity.
    + lia.
    + apply requests_tools_forever_always_calls.
Defined.

(* ================================================================== *)
(** ** [generateObject]: one request *)

(** X7.  [generateObject] makes exactly one request and runs no tool,
    however the call ends; the request asks for a JSON object, announces no
    tools, and its last message is the user message that carries the
    prompt. *)
Theorem generateObject_makes_one_request :
  forall host options,
    snd (generateObject host options) = [EvFetch (object_request host options)]
    /\ body_tools (object_request host options) = None
    /\ body_response_format (object_request host options) = Some "json_object"
    /\ exists before instruction,
        body_messages (object_request host options)
        = before ++ [user_message (String.append (object_prompt options) instruction)]
        /\ Forall (fun m => role m = system) before
        /\ (length before <= 1)%nat.
Proof.
  intros host options. split; [|split; [reflexivity|split; [reflexivity|]]].
  - unfold generateObject, bind, await_fetch.
    destruct (fetch host [] (object_request host options))
      as [[body|reply|unreadable]|e]; try reflexivity.
    destruct (JSON_parse host (ToString (content reply))) as [parsed|];
      [|reflexivity].
    destruct (schema_parse host (schema options) parsed); reflexivity.
  - exists (system_messages (object_system options)). eexists.
    split; [reflexivity|].
    unfold system_messages. destruct (object_system options) as [[|c text]|];
      simpl; split; try constructor; try reflexivity; try constructor; lia.
Qed.

(* ================================================================== *)
(** ** [generateText]: the tools that run *)

Lemma split_inside {A : Type} :
  forall (l1 l2 pre : list A) (x : A) (post : list A),
    l1 ++ l2 = pre ++ x :: post ->
    (length pre < length l1)%nat ->
    exists post1, l1 = pre ++ x :: post1 /\ post = post1 ++ l2.
Proof.
  induction l1 as [|a l1 IH]; intros l2 pre x post Heq Hlen.
  - simpl in Hlen. lia.
  - destruct pre as [|b pre]; simpl in Heq; injection Heq as -> Heq.
    + exists l1. split; [reflexivity | now symmetry].
    + simpl in Hlen. destruct (IH l2 pre x post Heq) as [post1 [-> ->]]; [lia|].
      exists post1. split; reflexivity.
Qed.

Lemma not_after_the_end {A : Type} (log pre : list A) (x : A) (post : list A) :
  log = pre ++ x :: post -> (length log <= length pre)%nat -> False.
Proof. intros ->. rewrite length_app. simpl. lia. Qed.

Section Executions.

Variable host : Host.
Variable options : GenerateTextOptions.

(** What an execution in the log of [run_tool_calls] tells: the name is an
    own property of [tools], and if that tool rejected, the calls stopped
    there with its error. *)
Lemma run_tool_calls_execute_inversion :
  forall calls messages log outcome log' pre toolName toolArgs post,
    run_tool_calls host options messages calls log = (outcome, log') ->
    log' = pre ++ EvExecute toolName toolArgs :: post ->
    (length log <= length pre)%nat ->
    exists toolDef,
      tools_get (tools options) toolName = OwnTool toolDef
      /\ forall e, execute toolDef pre toolArgs = Throw e ->
                   outcome = Throw e /\ post = [].
Proof.
  induction calls as [|call rest IH];
    intros messages log outcome log' pre toolName toolArgs post Hrun Hlog Hlen.
  - injection Hrun as _ <-. destruct (not_after_the_end _ _ _ _ Hlog Hlen).
  - simpl in Hrun. unfold bind at 1, run_tool_call in Hrun.
    destruct (JSON_parse host (call_arguments call)) as [parsed|].
    + destruct (tools_get (tools options) (call_name call)) as [toolDef| |] eqn:Hget.
      * unfold bind, await_execute in Hrun.
        destruct (execute toolDef log parsed) as [result|e0] eqn:Hexec.
        -- unfold ret in Hrun.
           destruct (run_tool_calls_cases host options rest
                       (messages ++ [tool_message call (JSON_stringify host 0 result)])
                       (log ++ [EvExecute (call_name call) parsed]))
             as [o [execs [Hrest _]]].
           pose proof Hrun as Hshape. rewrite Hrest in Hshape.
           injection Hshape as _ Hlog'.
           rewrite Hlog, <- app_assoc in Hlog'. simpl in Hlog'.
           destruct (split_after_prefix _ _ _ _ _ Hlog' Hlen) as [mid [Hpre Hmid]].
           destruct mid as [|x mid].
           ++ rewrite app_nil_r in Hpre. subst pre. simpl in Hmid.
              injection Hmid as <- <- _. exists toolDef. split; [exact Hget|].
              intros e He. rewrite Hexec in He. discriminate.
           ++ apply (IH _ _ _ _ _ _ _ _ Hrun Hlog).
              rewrite Hpre, !length_app. simpl. lia.
        -- injection Hrun as <- <-.
           destruct (split_after_prefix _ _ _ _ _ Hlog Hlen) as [mid [Hpre Hmid]].
           destruct mid as [|x mid].
           ++ rewrite app_nil_r in Hpre. subst pre. simpl in Hmid.
              injection Hmid as <- <- <-. exists toolDef. split; [exact Hget|].
              intros e He. rewrite Hexec in He. injection He as ->. now split.
           ++ simpl in Hmid. injection Hmid as _ Hmid.
              destruct mid; discriminate.
      * injection Hrun as _ <-. destruct (not_after_the_end _ _ _ _ Hlog Hlen).
      * exact (IH _ _ _ _ _ _ _ _ Hrun Hlog Hlen).
    + injection Hrun as _ <-. destruct (not_after_the_end _ _ _ _ Hlog Hlen).
Qed.

Lemma iteration_execute_inversion :
  forall messages stepCount log outcome log' pre toolName toolArgs post,
    iteration host options messages stepCount log = (outcome, log') ->
    log' = pre ++ EvExecute toolName toolArgs :: post ->
    (length log <= length pre)%nat ->
    exists toolDef,
      tools_get (tools options) toolName = OwnTool toolDef
      /\ forall e, execute toolDef pre toolArgs = Throw e ->
                   outcome = Throw e /\ post = [].
Proof.
  intros messages stepCount log outcome log' pre toolName toolArgs post
         Hit Hlog Hlen.
  assert (Hfetch_only :
            log' = log ++ [EvFetch (text_request host options messages)] ->
            False).
  { intros Hend. rewrite Hlog in Hend. symmetry in Hend.
    destruct (split_after_prefix _ _ _ _ _ Hend Hlen) as [mid [_ Hmid]].
    destruct mid as [|x mid]; [discriminate|].
    simpl in Hmid. injection Hmid as _ Hmid. destruct mid; discriminate. }
  unfold iteration, bind at 1, await_fetch in Hit.
  destruct (fetch host log (text_request host options messages))
    as [[body|reply|unreadable]|e0].
  - injection Hit as _ <-. now destruct Hfetch_only.
  - destruct (tool_calls reply) as [[|call calls]|].
    + unfold bind, ret in Hit. injection Hit as _ <-. now destruct Hfetch_only.
    + unfold bind at 1 in Hit. unfold bind at 1 in Hit.
      destruct (run_tool_calls host options (messages ++ [reply]) (call :: calls)
                  (log ++ [EvFetch (text_request host options messages)]))
        as [inner log1] eqn:Hrun.
      assert (Hlog1 : log1 = log').
      { destruct inner; unfold ret in Hit; now injection Hit. }
      subst log1.
      assert (Hlen' : (length (log ++ [EvFetch (text_request host options messages)])
                       <= length pre)%nat).
      { destruct (run_tool_calls_cases host options (call :: calls)
                    (messages ++ [reply])
                    (log ++ [EvFetch (text_request host options messages)]))
          as [o [execs [Hshape _]]].
        rewrite Hrun in Hshape. injection Hshape as _ Hshape.
        rewrite Hlog, <- app_assoc in Hshape. simpl in Hshape.
        symmetry in Hshape.
        destruct (split_after_prefix _ _ _ _ _ Hshape Hlen) as [mid [Hpre Hmid]].
        destruct mid as [|x mid]; [discriminate|].
        rewrite Hpre, !length_app. simpl. lia. }
      destruct (run_tool_calls_execute_inversion _ _ _ _ _ _ _ _ _ Hrun Hlog Hlen')
        as [toolDef [Hget Hthrows]].
      exists toolDef. split; [exact Hget|].
      intros e He. destruct (Hthrows e He) as [-> ->].
      injection Hit as <-. now split.
    + unfold bind, ret in Hit. injection Hit as _ <-. now destruct Hfetch_only.
  - injection Hit as _ <-. now destruct Hfetch_only.
  - injection Hit as _ <-. now destruct Hfetch_only.
Qed.

Lemma loop_execute_inversion :
  forall fuel messages stepCount log outcome log' pre toolName toolArgs post,
    loop host options fuel messages stepCount log = Some (outcome, log') ->
    log' = pre ++ EvExecute toolName toolArgs :: post ->
    (length log <= length pre)%nat ->
    exists toolDef,
      tools_get (tools options) toolName = OwnTool toolDef
      /\ forall e, execute toolDef pre toolArgs = Throw e ->
                   outcome = Throw e /\ post = [].
Proof.
  induction fuel as [|fuel IH];
    intros messages stepCount log outcome log' pre toolName toolArgs post
           H Hlog Hlen; [discriminate|].
  rewrite loop_S in H.
  destruct (iteration host options messages stepCount log) as [o log1] eqn:Hit.
  destruct o as [[[messages' stepCount'] [|]]|e0].
  - injection H as <- <-.
    destruct (iteration_execute_inversion _ _ _ _ _ _ _ _ _ Hit Hlog Hlen)
      as [toolDef [Hget Hthrows]].
    exists toolDef. split; [exact Hget|].
    intros e He. destruct (Hthrows e He) as [Hno _]. discriminate.
  - destruct (loop_extends _ _ _ _ _ _ _ _ H) as [more [Hmore _]].
    destruct (Nat.le_gt_cases (length log1) (length pre)) as [Hle|Hgt].
    + exact (IH _ _ _ _ _ _ _ _ _ H Hlog Hle).
    + rewrite Hlog in Hmore. symmetry in Hmore.
      destruct (split_inside _ _ _ _ _ Hmore Hgt) as [post1 [Hlog1 _]].
      destruct (iteration_execute_inversion _ _ _ _ _ _ _ _ _ Hit Hlog1 Hlen)
        as [toolDef [Hget Hthrows]].
      exists toolDef. split; [exact Hget|].
      intros e He. destruct (Hthrows e He) as [Hno _]. discriminate.
  - injection H as <- <-.
    destruct (iteration_execute_inversion _ _ _ _ _ _ _ _ _ Hit Hlog Hlen)
      as [toolDef [Hget Hthrows]].
    exists toolDef. split; [exact Hget|].
    intros e He. destruct (Hthrows e He) as [Hthrown ->].
    injection Hthrown as ->. now split.
Qed.

End Executions.

(** X8.  [generateText] executes a tool only under a name the caller
    registered (an own property of [tools]); in particular it executes
    nothing when [tools] is absent. *)
Theorem only_registered_tools_are_executed :
  forall host options fuel outcome log toolName toolArgs,
    generateText host options fuel = Some (outcome, log) ->
    In (EvExecute toolName toolArgs) log ->
    registered (tools options) toolName = true
    /\ tools options <> None.
Proof.
  intros host options fuel outcome log toolName toolArgs Hrun Hin.
  destruct (generateText_inv _ _ _ _ _ Hrun) as [ended [Hloop _]].
  destruct (in_split _ _ Hin) as [pre [post Hlog]].
  destruct (loop_execute_inversion host options _ _ _ _ _ _ _ _ _ _ Hloop Hlog
              (Nat.le_0_l _)) as [toolDef [Hget _]].
  unfold tools_get in Hget. unfold registered.
  destruct (tools options) as [own|]; [|discriminate].
  split; [|discriminate].
  destruct (obj_get own toolName); [reflexivity|].
  destruct (existsb (String.eqb toolName) Object_prototype_keys); discriminate.
Qed.

Lemma only_registered_tools_are_executed_example :
  registered (tools (example_options None)) "search" = true.
Proof.
  apply (only_registered_tools_are_executed
           (calls_once "search" "{}") (example_options None) 10%nat
           _ _ "search" (JObj []) eq_refl).
  right; left; reflexivity.
Defined.

(** X9.  When a registered tool's [execute] rejects, [generateText] throws
    that very error and the execution is the last thing the run did: the
    remaining calls of the reply are not run and no further request is
    made. *)
Theorem tool_rejection_aborts_the_run :
  forall host options fuel outcome log pre toolName toolArgs post own toolDef e,
    generateText host options fuel = Some (outcome, log) ->
    log = pre ++ EvExecute toolName toolArgs :: post ->
    tools options = Some own ->
    obj_get own toolName = Some toolDef ->
    execute toolDef pre toolArgs = Throw e ->
    outcome = Throw e /\ post = [].
Proof.
  intros host options fuel outcome log pre toolName toolArgs post own toolDef e
         Hrun Hlog Htools Hown Hthrow.
  destruct (generateText_inv _ _ _ _ _ Hrun) as [ended [Hloop Hout]].
  destruct (loop_execute_inversion host options _ _ _ _ _ _ _ _ _ _ Hloop Hlog
              (Nat.le_0_l _)) as [toolDef' [Hget Hthrows]].
  unfold tools_get in Hget. rewrite Htools, Hown in Hget.
  injection Hget as <-. destruct (Hthrows e Hthrow) as [-> ->].
  now split.
Qed.

Lemma tool_rejection_aborts_the_run_example :
  exists outcome log,
    generateText (always_calls "search" "{}") broken_options 10
    = Some (outcome, log)
    /\ outcome = Throw (Error "index offline")
    /\ length log = 2%nat.
Proof.
  eexists _, _. split; [reflexivity|]. split; [|reflexivity].
  exact (proj1 (tool_rejection_aborts_the_run
                  (always_calls "search" "{}") broken_options 10%nat
                  _ _
                  [EvFetch (text_request (always_calls "search" "{}")
                                         broken_options
                                         (initial_messages broken_options))]
                  "search" (JObj []) [] [("search", broken_tool)] broken_tool
                  (Error "index offline")
                  eq_refl eq_refl eq_refl eq_refl eq_refl)).
Defined.

(* ================================================================== *)
(** ** [generateProjectName] *)

Section ProjectName_facts.

Variable host : Host.
Variable trim : string -> string.

Lemma trimmed_or_untitled_not_empty (text : Content) :
  trimmed_or_untitled trim text <> "".
Proof.
  unfold trimmed_or_untitled. destruct text as [s| |]; try discriminate.
  destruct (trim s); discriminate.
Qed.

Lemma project_name_events (prompt : string) (fuel : nat)
      (ended : Completion (list Message * Z)) (log : Log) :
  loop host (project_name_options prompt) fuel
       (initial_messages (project_name_options prompt)) 0 []
  = Some (ended, log) ->
  Forall plain_project_request log.
Proof.
  intros Hloop. apply Forall_forall. intros ev Hin.
  destruct (in_split _ _ Hin) as [pre [post Hlog]].
  destruct ev as [request|toolName toolArgs].
  - destruct (request_in_step host (project_name_options prompt)
                _ _ _ _ _ _ Hloop Hlog)
      as [fuel_i [added [stepCount_i [_ [-> _]]]]].
    eexists. repeat split.
  - destruct (loop_execute_inversion host (project_name_options prompt)
                _ _ _ _ _ _ _ _ _ _ Hloop Hlog (Nat.le_0_l _))
      as [toolDef [Hget _]].
    discriminate.
Qed.

End ProjectName_facts.

(** X10.  [generateProjectName] always returns a name, never the empty
    string, after at least one and at most 10 requests; each of them goes
    to the fixed model and announces no tool, and no tool is ever run. *)
Theorem generateProjectName_returns_a_name :
  forall host trim fuel prompt,
    (10 <= fuel)%nat ->
    exists name log,
      generateProjectName host trim fuel prompt = Some (name, log)
      /\ name <> ""
      /\ (1 <= length log <= 10)%nat
      /\ Forall plain_project_request log.
Proof.
  intros host trim fuel prompt Hfuel.
  destruct (@loop_terminates host (project_name_options prompt) fuel
              (initial_messages (project_name_options prompt)) 0 [])
    as [ended [more [Hloop [Hlo Hhi]]]]; [lia | lia |].
  simpl app in Hloop.
  pose proof (project_name_events host prompt fuel ended more Hloop) as Hplain.
  assert (Hall : round_trips more = length more).
  { clear - Hplain. unfold round_trips.
    induction Hplain as [|ev rest [request [-> _]] _ IH]; [reflexivity|].
    simpl. now rewrite IH. }
  unfold generateProjectName, generateText, transcript. rewrite Hloop.
  destruct ended as [[final stepCount]|e].
  - destruct (final_text final) as [text|e]; eexists _, _;
      (split; [reflexivity|]); (split; [|split; [lia | exact Hplain]]).
    + apply trimmed_or_untitled_not_empty.
    + discriminate.
  - eexists _, _. split; [reflexivity|].
    split; [discriminate | split; [lia | exact Hplain]].
Qed.

Lemma generateProjectName_returns_a_name_example :
  exists name log,
    generateProjectName (always_calls "search" "{}") example_trim 12 "a trip app"
    = Some (name, log)
    /\ name <> ""
    /\ (1 <= length log <= 10)%nat
    /\ Forall plain_project_request log.
Proof.
  apply generateProjectName_returns_a_name. lia.
Defined.

(** X11.  The name [generateProjectName] returns is either the default
    ["Untitled Project"] or the trimmed content of the assistant reply to
    the last request of the run (for a [trim] that keeps the empty string
    empty, as [String.prototype.trim] does). *)
Theorem project_name_is_default_or_trimmed_reply :
  forall host trim fuel prompt name log,
    trim "" = "" ->
    generateProjectName host trim fuel prompt = Some (name, log) ->
    name = Untitled_Project
    \/ exists pre request reply s,
        log = pre ++ [EvFetch request]
        /\ fetch host pre request = Return (Ok reply)
        /\ role reply = assistant
        /\ content reply = Text s
        /\ name = trim s.
Proof.
  intros host trim fuel prompt name log Hempty Hname.
  unfold generateProjectName, generateText, transcript in Hname.
  destruct (loop host (project_name_options prompt) fuel
                 (initial_messages (project_name_options prompt)) 0 [])
    as [[[[final stepCount]|e] log']|] eqn:Hloop; try discriminate.
  - pose proof (project_name_events host prompt fuel _ _ Hloop) as Hplain.
    destruct (loop_last_pass _ _ _ _ _ _ _ _ _ Hloop)
      as [pre [messages_i [reply [added [execs
            [Hlog [Hquiet [Hfetch [Hfinal [_ Hlen]]]]]]]]]].
    assert (Hexecs : execs = []).
    { destruct execs as [|ev execs]; [reflexivity|]. exfalso.
      inversion Hquiet as [|? ? Hev _]; subst.
      rewrite Forall_forall in Hplain.
      destruct (Hplain ev) as [request [-> _]]; [|discriminate].
      apply in_or_app. right. right. now left. }
    subst execs. destruct added; [|discriminate]. subst final log'.
    rewrite final_text_last in Hname. injection Hname as <- <-.
    destruct (Role_eqb (role reply) assistant) eqn:Hrole.
    + apply Role_eqb_eq in Hrole. unfold trimmed_or_untitled.
      destruct (content reply) as [s| |] eqn:Hcontent; try (now left).
      destruct (trim s) as [|c rest] eqn:Htrim; [now left|].
      right. exists pre, (text_request host (project_name_options prompt) messages_i),
               reply, s.
      repeat split; try assumption; try reflexivity. now symmetry.
    + left. unfold trimmed_or_untitled. now rewrite Hempty.
  - injection Hname as <- _. now left.
Qed.

Lemma project_name_is_default_or_trimmed_reply_example :
  exists name log,
    generateProjectName
      (scripted_host (fun _ => Return (Ok (assistant_text "  Trip Planner"))))
      example_trim 10 "a trip app"
    = Some (name, log)
    /\ (name = Untitled_Project
        \/ exists pre request reply s,
            log = pre ++ [EvFetch request]
            /\ fetch (scripted_host
                        (fun _ => Return (Ok (assistant_text "  Trip Planner"))))
                     pre request = Return (Ok reply)
            /\ role reply = assistant
            /\ content reply = Text s
            /\ name = example_trim s).
Proof.
  eexists _, _. split; [reflexivity|].
  apply (project_name_is_default_or_trimmed_reply
           (scripted_host (fun _ => Return (Ok (assistant_text "  Trip Planner"))))
           example_trim 10%nat "a trip app" _ _ eq_refl eq_refl).
Defined.

(** X12.  When the endpoint answers the first request with an assistant
    message that requests no tool, [generateProjectName] makes that one
    request and returns the trimmed content, or the default name when the
    content is [null] or trims to the empty string. *)
Theorem project_name_from_first_reply :
  forall host trim fuel prompt reply,
    fetch host []
          (text_request host (project_name_options prompt)
                        (initial_messages (project_name_options prompt)))
    = Return (Ok reply) ->
    tool_calls reply = None \/ tool_calls reply = Some [] ->
    role reply = assistant ->
    generateProjectName host trim (S fuel) prompt
    = Some (trimmed_or_untitled trim (content reply),
            [EvFetch (text_request host (project_name_options prompt)
                        (initial_messages (project_name_options prompt)))]).
Proof.
  intros host trim fuel prompt reply Hfetch Hnone Hrole.
  unfold generateProjectName, generateText, transcript. rewrite loop_S.
  assert (Hit : iteration host (project_name_options prompt)
                  (initial_messages (project_name_options prompt)) 0 []
                = (Return (initial_messages (project_name_options prompt) ++ [reply],
                           1, true),
                   [EvFetch (text_request host (project_name_options prompt)
                               (initial_messages (project_name_options prompt)))])).
  { unfold iteration, bind at 1, await_fetch. rewrite Hfetch.
    destruct Hnone as [-> | ->]; reflexivity. }
  rewrite Hit, final_text_last, Hrole. reflexivity.
Qed.

Lemma project_name_from_first_reply_example :
  generateProjectName
    (scripted_host (fun _ => Return (Ok (assistant_text "  Trip Planner"))))
    example_trim 10 "a trip app"
  = Some ("Trip Planner",
          [EvFetch (text_request
                      (scripted_host
                         (fun _ => Return (Ok (assistant_text "  Trip Planner"))))
                      (project_name_options "a trip app")
                      (initial_messages (project_name_options "a trip app")))]).
Proof.
  exact (project_name_from_first_reply
           (scripted_host (fun _ => Return (Ok (assistant_text "  Trip Planner"))))
           example_trim 9%nat "a trip app" (assistant_text "  Trip Planner")
           eq_refl (or_introl eq_refl) eq_refl).
Defined.

(* ================================================================== *)
(** ** The schema compiler: shape of the output *)

(** X13.  Every node compiles to an object whose [type] is one of
    ["object"], ["string"], ["number"], ["boolean"], ["array"].  A node the
    compiler does not recognise compiles to exactly [{type: "string"}],
    whatever its validator accepts, and wrapping a node in Optional leaves
    its compiled document unchanged. *)
Theorem compiled_type_is_known :
  (forall schema,
      exists name,
        object_field (zodToJsonSchema schema) "type" = Some (JStr name)
        /\ In name type_names)
  /\ (forall validate,
         zodToJsonSchema (ZodOther validate) = JObj [("type", JStr "string")])
  /\ (forall innerType,
         zodToJsonSchema (ZodOptional innerType) = zodToJsonSchema innerType).
Proof.
  split; [|split; reflexivity].
  intros schema.
  induction schema as [shape _ | d | d | d | element lo hi d _ | values d
                       | inner IH | validate] using ZodType_nested_ind.
  - exists "object". rewrite zodToJsonSchema_object. split; [reflexivity|].
    now left.
  - exists "string". split; [reflexivity | right; now left].
  - exists "number". split; [reflexivity | right; right; now left].
  - exists "boolean". split; [reflexivity | right; right; right; now left].
  - exists "array". split; [reflexivity | right; right; right; right; now left].
  - exists "string". split; [reflexivity | right; now left].
  - exact IH.
  - exists "string". split; [reflexivity | right; now left].
Qed.

Lemma obj_get_obj_set {A : Type} :
  forall (o : list (string * A)) (k : string) (v : A) (k' : string),
    obj_get (obj_set o k v) k'
    = if String.eqb k k' then Some v else obj_get o k'.
Proof.
  induction o as [|[k0 v0] rest IH]; intros k v k'; simpl.
  - reflexivity.
  - destruct (String.eqb_spec k0 k) as [->|Hne]; simpl.
    + now destruct (String.eqb k k').
    + rewrite IH. destruct (String.eqb_spec k0 k') as [->|Hne'].
      * destruct (String.eqb_spec k k') as [->|_]; [contradiction | reflexivity].
      * reflexivity.
Qed.

Lemma obj_get_obj_assign {A : Type} :
  forall (o : list (string * A)) (k : string) (v : A) (k' : string),
    obj_get (obj_assign o k v) k'
    = if String.eqb k "__proto__" then obj_get o k'
      else if String.eqb k k' then Some v else obj_get o k'.
Proof.
  intros o k v k'. unfold obj_assign.
  destruct (String.eqb k "__proto__"); [reflexivity | apply obj_get_obj_set].
Qed.

Lemma obj_get_absent {A : Type} :
  forall (o : list (string * A)) (k : string),
    ~ In k (map fst o) -> obj_get o k = None.
Proof.
  induction o as [|[k0 v0] rest IH]; intros k Hk; [reflexivity|]. simpl.
  destruct (String.eqb_spec k0 k) as [->|Hne].
  - exfalso. apply Hk. now left.
  - apply IH. intros Hin. apply Hk. now right.
Qed.

Lemma obj_get_In {A : Type} :
  forall (o : list (string * A)) (k : string) (v : A),
    obj_get o k = Some v -> In (k, v) o.
Proof.
  induction o as [|[k0 v0] rest IH]; intros k v H; [discriminate|].
  simpl in H. destruct (String.eqb_spec k0 k) as [->|Hne].
  - injection H as ->. now left.
  - right. now apply IH.
Qed.

Lemma In_obj_get {A : Type} :
  forall (o : list (string * A)) (k : string) (v : A),
    NoDup (map fst o) -> In (k, v) o -> obj_get o k = Some v.
Proof.
  induction o as [|[k0 v0] rest IH]; intros k v Hnd Hin; [contradiction|].
  inversion Hnd as [|? ? Hnotin Hnd']; subst. simpl.
  destruct Hin as [Heq|Hin].
  - injection Heq as -> ->. now rewrite String.eqb_refl.
  - destruct (String.eqb_spec k0 k) as [->|Hne].
    + exfalso. apply Hnotin. apply (in_map fst) in Hin. exact Hin.
    + now apply IH.
Qed.

(** What the loop over the fields leaves under a key of [properties]. *)
Lemma object_entries_get :
  forall l properties required key,
    NoDup (map fst l) ->
    obj_get (fst (object_entries l properties required)) key
    = if String.eqb key "__proto__" then obj_get properties key
      else match obj_get l key with
           | Some value => Some (zodToJsonSchema value)
           | None => obj_get properties key
           end.
Proof.
  induction l as [|[k v] rest IH]; intros properties required key Hnd.
  - simpl. now destruct (String.eqb key "__proto__").
  - inversion Hnd as [|? ? Hnotin Hnd']; subst. simpl.
    rewrite (IH _ _ key Hnd'), obj_get_obj_assign.
    destruct (String.eqb_spec key "__proto__") as [->|Hkey].
    + destruct (String.eqb_spec k "__proto__") as [->|Hk]; [reflexivity|].
      destruct (String.eqb_spec k "__proto__"); [contradiction | reflexivity].
    + destruct (String.eqb_spec k key) as [->|Hne].
      * rewrite (obj_get_absent _ _ Hnotin).
        destruct (String.eqb_spec key "__proto__"); [contradiction | reflexivity].
      * destruct (obj_get rest key); [reflexivity|].
        now destruct (String.eqb k "__proto__").
Qed.

(** X14.  For an Object node with distinct field names, [properties]
    defines exactly the fields other than [__proto__], each with its
    compiled schema: the assignment to [__proto__] sets the prototype of
    [properties] instead of defining a property.  [required] has no
    repetition, and each name in it other than [__proto__] is defined in
    [properties]. *)
Theorem compiled_object_lists_its_fields :
  forall shape,
    NoDup (map fst shape) ->
    let doc := zodToJsonSchema (ZodObject shape) in
    exists properties,
      object_field doc "properties" = Some (JObj properties)
      /\ (forall key value,
             In (key, value) shape -> key <> "__proto__" ->
             obj_get properties key = Some (zodToJsonSchema value))
      /\ (forall key compiled,
             obj_get properties key = Some compiled ->
             key <> "__proto__"
             /\ exists value,
                 In (key, value) shape /\ compiled = zodToJsonSchema value)
      /\ (forall key,
             In key (required_of doc) -> key <> "__proto__" ->
             exists value,
               In (key, value) shape
               /\ obj_get properties key = Some (zodToJsonSchema value))
      /\ NoDup (required_of doc).
Proof.
  intros shape Hnd doc. subst doc. rewrite required_of_object.
  exists (fst (object_entries shape [] [])).
  assert (Hget : forall key value,
             In (key, value) shape -> key <> "__proto__" ->
             obj_get (fst (object_entries shape [] [])) key
             = Some (zodToJsonSchema value)).
  { intros key value Hin Hkey. rewrite (object_entries_get _ _ _ _ Hnd).
    destruct (String.eqb_spec key "__proto__"); [contradiction|].
    now rewrite (In_obj_get _ _ _ Hnd Hin). }
  split; [|split; [exact Hget|split; [|split]]].
  - rewrite zodToJsonSchema_object. reflexivity.
  - intros key compiled H. rewrite (object_entries_get _ _ _ _ Hnd) in H.
    destruct (String.eqb_spec key "__proto__") as [->|Hkey]; [discriminate|].
    split; [exact Hkey|].
    destruct (obj_get shape key) as [value|] eqn:E; [|discriminate].
    injection H as <-. exists value. split; [now apply obj_get_In | reflexivity].
  - intros key Hin Hkey. apply in_required_fields in Hin.
    destruct Hin as [value [Hin _]]. exists value.
    split; [exact Hin | now apply Hget].
  - unfold required_fields. clear - Hnd.
    induction shape as [|[k v] rest IH]; [constructor|].
    inversion Hnd as [|? ? Hnotin Hnd']; subst. simpl.
    destruct (negb (isOptional v)); simpl; [|now apply IH].
    constructor; [|now apply IH].
    intros Hin. apply Hnotin. apply in_map_iff in Hin.
    destruct Hin as [[k' v'] [<- Hin]]. apply filter_In in Hin.
    destruct Hin as [Hin _]. apply (in_map fst) in Hin. exact Hin.
Qed.

(** X14 at [{__proto__: string, id: number}]: both names are required, and
    [properties] defines [id] only. *)
Lemma compiled_object_lists_its_fields_example :
  exists properties,
    object_field
      (zodToJsonSchema (ZodObject [("__proto__", ZodString None);
                                   ("id", ZodNumber None)]))
      "properties" = Some (JObj properties)
    /\ obj_get properties "id" = Some (zodToJsonSchema (ZodNumber None))
    /\ obj_get properties "__proto__" = None
    /\ required_of
         (zodToJsonSchema (ZodObject [("__proto__", ZodString None);
                                      ("id", ZodNumber None)]))
       = ["__proto__"; "id"].
Proof.
  assert (Hnd : NoDup (map fst [("__proto__", ZodString None);
                                ("id", ZodNumber None)])).
  { repeat constructor; simpl; intuition discriminate. }
  destruct (compiled_object_lists_its_fields _ Hnd)
    as [properties [Hprops [Hget [Honly _]]]].
  exists properties. split; [exact Hprops|]. split; [|split; [|reflexivity]].
  - apply Hget; [right; left; reflexivity | discriminate].
  - destruct (obj_get properties "__proto__") as [compiled|] eqn:E;
      [|reflexivity].
    destruct (Honly _ _ E) as [Hne _]. now destruct Hne.
Defined.

(** X15.  Every tool a request announces carries, as [parameters], the
    compiled input schema of the caller's tool of that name, and in it
    every object at any depth is closed ([additionalProperties: false]). *)
Theorem announced_parameters_are_compiled_and_closed :
  forall host options messages manifest announced,
    body_tools (text_request host options messages) = Some manifest ->
    In announced manifest ->
    strict (function_parameters announced) = true
    /\ exists own toolDef,
        tools options = Some own
        /\ In (function_name announced, toolDef) own
        /\ function_parameters announced = zodToJsonSchema (inputSchema toolDef)
        /\ function_description announced = description toolDef.
Proof.
  intros host options messages manifest announced Htools Hin.
  unfold text_request in Htools. simpl in Htools.
  assert (Hmanifest : manifest = toolsArray_of (tools options)).
  { destruct (toolsArray_of (tools options)); [discriminate|].
    now injection Htools. }
  subst manifest. unfold toolsArray_of in Hin.
  destruct (tools options) as [own|]; [|contradiction].
  apply in_map_iff in Hin. destruct Hin as [[toolName toolDef] [<- Hin]].
  split.
  - apply zodToJsonSchema_strict_object.
  - exists own, toolDef. repeat split. exact Hin.
Qed.

Lemma announced_parameters_are_compiled_and_closed_example :
  strict (zodToJsonSchema (inputSchema search_tool)) = true.
Proof.
  apply (announced_parameters_are_compiled_and_closed
           (always_calls "search" "{}") (example_options None) []
           [mkTool "search" "Search the web"
                   (zodToJsonSchema (inputSchema search_tool))]
           (mkTool "search" "Search the web"
                   (zodToJsonSchema (inputSchema search_tool)))
           eq_refl (or_introl eq_refl)).
Defined.

(* ================================================================== *)
(** ** [generateObject]: where the errors come from *)

(** X17.  Whatever [generateObject] throws, it throws after its single
    request, and it is the rejection of [fetch]; or what reading the
    response threw; or the API error of a non-2xx answer; or the
    [SyntaxError] of [JSON.parse] on the reply content; or what
    [schema.parse] threw for the parsed value.  It throws nothing else. *)
Theorem every_error_of_generateObject_has_a_source :
  forall host options e log,
    generateObject host options = (Throw e, log) ->
    log = [EvFetch (object_request host options)]
    /\ (fetch host [] (object_request host options) = Throw e
        \/ fetch host [] (object_request host options) = Return (Unreadable e)
        \/ (exists body,
               fetch host [] (object_request host options) = Return (NotOk body)
               /\ e = Error (String.append "OpenRouter API error: " body))
        \/ (exists reply,
               fetch host [] (object_request host options) = Return (Ok reply)
               /\ ((JSON_parse host (ToString (content reply)) = None
                    /\ e = SyntaxError)
                   \/ exists parsed,
                       JSON_parse host (ToString (content reply)) = Some parsed
                       /\ schema_parse host (schema options) parsed = Throw e))).
Proof.
  intros host options e log. unfold generateObject, bind, await_fetch.
  destruct (fetch host [] (object_request host options))
    as [[body|reply|unreadable]|e0].
  - intros H. injection H as <- <-. split; [reflexivity|].
    right. right. left. now exists body.
  - destruct (JSON_parse host (ToString (content reply))) as [parsed|] eqn:Hparse.
    + destruct (schema_parse host (schema options) parsed) as [v|e1] eqn:Hzod.
      * discriminate.
      * intros H. injection H as <- <-. split; [reflexivity|].
        right. right. right. exists reply.
        split; [reflexivity|]. right. now exists parsed.
    + intros H. injection H as <- <-. split; [reflexivity|].
      right. right. right. exists reply.
      split; [reflexivity|]. now left.
  - intros H. injection H as <- <-. split; [reflexivity|]. right. now left.
  - intros H. injection H as <- <-. split; [reflexivity|]. now left.
Qed.

(** X17 at an endpoint whose 2xx body has no [choices]. *)
Lemma every_error_of_generateObject_has_a_source_example :
  snd (generateObject
         (scripted_host
            (fun _ => Return (Unreadable
                                (TypeError "data.choices is undefined"))))
         example_object_options)
  = [EvFetch (object_request
                (scripted_host
                   (fun _ => Return (Unreadable
                                       (TypeError "data.choices is undefined"))))
                example_object_options)].
Proof.
  exact (proj1 (every_error_of_generateObject_has_a_source
                  (scripted_host
                     (fun _ => Return (Unreadable
                                         (TypeError "data.choices is undefined"))))
                  example_object_options
                  (TypeError "data.choices is undefined") _ eq_refl)).
Defined.

(* ================================================================== *)
(** ** [generateText]: tool results in the transcript *)

Section Results.

Variable host : Host.
Variable options : GenerateTextOptions.

Lemma run_tool_calls_result_reported :
  forall calls messages log messages' log' pre toolName toolArgs post,
    run_tool_calls host options messages calls log = (Return messages', log') ->
    log' = pre ++ EvExecute toolName toolArgs :: post ->
    (length log <= length pre)%nat ->
    exists call toolDef result,
      In call calls
      /\ call_name call = toolName
      /\ JSON_parse host (call_arguments call) = Some toolArgs
      /\ tools_get (tools options) toolName = OwnTool toolDef
      /\ execute toolDef pre toolArgs = Return result
      /\ In (tool_message call (JSON_stringify host 0 result)) messages'.
Proof.
  induction calls as [|call rest IH];
    intros messages log messages' log' pre toolName toolArgs post Hrun Hlog Hlen.
  - injection Hrun as _ <-. destruct (not_after_the_end _ _ _ _ Hlog Hlen).
  - simpl in Hrun. unfold bind at 1, run_tool_call in Hrun.
    destruct (JSON_parse host (call_arguments call)) as [parsed|] eqn:Hparse;
      [|discriminate].
    destruct (tools_get (tools options) (call_name call)) as [toolDef| |] eqn:Hget.
    + unfold bind, await_execute in Hrun.
      destruct (execute toolDef log parsed) as [result|e0] eqn:Hexec;
        [|discriminate].
      unfold ret in Hrun.
      destruct (run_tool_calls_cases host options rest
                  (messages ++ [tool_message call (JSON_stringify host 0 result)])
                  (log ++ [EvExecute (call_name call) parsed]))
        as [o [execs [Hrest [_ Hout]]]].
      rewrite Hrun in Hrest. injection Hrest as <- Hlog'.
      destruct Hout as [added [Hmessages _]].
      rewrite Hlog, <- app_assoc in Hlog'. simpl in Hlog'.
      destruct (split_after_prefix _ _ _ _ _ (eq_sym Hlog') Hlen)
        as [mid [Hpre Hmid]].
      destruct mid as [|x mid].
      * rewrite app_nil_r in Hpre. subst pre. simpl in Hmid.
        injection Hmid as <- <- _.
        exists call, toolDef, result. repeat split; try assumption.
        -- now left.
        -- rewrite Hmessages. apply in_or_app. left. apply in_or_app. right.
           now left.
      * destruct (IH _ _ _ _ _ _ _ _ Hrun Hlog)
          as [call' [toolDef' [result' [Hin Hrest']]]].
        -- rewrite Hpre, !length_app. simpl. lia.
        -- exists call', toolDef', result'. split; [now right | exact Hrest'].
    + discriminate.
    + destruct (IH _ _ _ _ _ _ _ _ Hrun Hlog Hlen)
        as [call' [toolDef' [result' [Hin Hrest']]]].
      exists call', toolDef', result'. split; [now right | exact Hrest'].
Qed.

Lemma iteration_result_reported :
  forall messages stepCount log messages' stepCount' shouldStop log'
         pre toolName toolArgs post,
    iteration host options messages stepCount log
    = (Return (messages', stepCount', shouldStop), log') ->
    log' = pre ++ EvExecute toolName toolArgs :: post ->
    (length log <= length pre)%nat ->
    exists reply calls call toolDef result,
      In reply messages'
      /\ tool_calls reply = Some calls
      /\ In call calls
      /\ call_name call = toolName
      /\ JSON_parse host (call_arguments call) = Some toolArgs
      /\ tools_get (tools options) toolName = OwnTool toolDef
      /\ execute toolDef pre toolArgs = Return result
      /\ In (tool_message call (JSON_stringify host 0 result)) messages'.
Proof.
  intros messages stepCount log messages' stepCount' shouldStop log'
         pre toolName toolArgs post Hit Hlog Hlen.
  assert (Hfetch_only :
            log' = log ++ [EvFetch (text_request host options messages)] ->
            False).
  { intros Hend. rewrite Hlog in Hend. symmetry in Hend.
    destruct (split_after_prefix _ _ _ _ _ Hend Hlen) as [mid [_ Hmid]].
    destruct mid as [|x mid]; [discriminate|].
    simpl in Hmid. injection Hmid as _ Hmid. destruct mid; discriminate. }
  unfold iteration, bind at 1, await_fetch in Hit.
  destruct (fetch host log (text_request host options messages))
    as [[body|reply|unreadable]|e0]; try discriminate.
  destruct (tool_calls reply) as [[|call calls]|] eqn:Hcalls.
  - unfold bind, ret in Hit. injection Hit as _ _ _ <-. now destruct Hfetch_only.
  - unfold bind at 1 in Hit. unfold bind at 1 in Hit.
    destruct (run_tool_calls_cases host options (call :: calls)
                (messages ++ [reply])
                (log ++ [EvFetch (text_request host options messages)]))
      as [o [execs [Hrun [_ Hout]]]].
    rewrite Hrun in Hit. destruct o as [messages1|e1]; [|discriminate].
    unfold ret in Hit. injection Hit as <- _ _ <-.
    destruct Hout as [added [Hmessages _]].
    assert (Hlen' : (length (log ++ [EvFetch (text_request host options messages)])
                     <= length pre)%nat).
    { pose proof Hlog as Hshape. rewrite <- app_assoc in Hshape.
      simpl in Hshape.
      destruct (split_after_prefix _ _ _ _ _ Hshape Hlen) as [mid [Hpre Hmid]].
      destruct mid as [|x mid]; [discriminate|].
      rewrite Hpre, !length_app. simpl. lia. }
    destruct (run_tool_calls_result_reported _ _ _ _ _ _ _ _ _ Hrun Hlog Hlen')
      as [bad [toolDef [result [Hin Hrest]]]].
    exists reply, (call :: calls), bad, toolDef, result.
    split; [|split; [exact Hcalls | split; [exact Hin | exact Hrest]]].
    rewrite Hmessages. apply in_or_app. left. apply in_or_app. right. now left.
  - unfold bind, ret in Hit. injection Hit as _ _ _ <-. now destruct Hfetch_only.
Qed.

Lemma loop_result_reported :
  forall fuel messages stepCount log final stepCount' log'
         pre toolName toolArgs post,
    loop host options fuel messages stepCount log
    = Some (Return (final, stepCount'), log') ->
    log' = pre ++ EvExecute toolName toolArgs :: post ->
    (length log <= length pre)%nat ->
    exists reply calls call toolDef result,
      In reply final
      /\ tool_calls reply = Some calls
      /\ In call calls
      /\ call_name call = toolName
      /\ JSON_parse host (call_arguments call) = Some toolArgs
      /\ tools_get (tools options) toolName = OwnTool toolDef
      /\ execute toolDef pre toolArgs = Return result
      /\ In (tool_message call (JSON_stringify host 0 result)) final.
Proof.
  induction fuel as [|fuel IH];
    intros messages stepCount log final stepCount' log' pre toolName toolArgs post
           H Hlog Hlen; [discriminate|].
  rewrite loop_S in H.
  destruct (iteration host options messages stepCount log)
    as [[[[messages1 stepCount1] [|]]|e0] log1] eqn:Hit; [| |discriminate].
  - injection H as <- _ <-.
    exact (iteration_result_reported _ _ _ _ _ _ _ _ _ _ _ Hit Hlog Hlen).
  - destruct (loop_accounting _ _ _ _ _ _ _ _ _ H)
      as [added [more [Hfinal [Hmore _]]]].
    destruct (Nat.le_gt_cases (length log1) (length pre)) as [Hle|Hgt].
    + exact (IH _ _ _ _ _ _ _ _ _ _ H Hlog Hle).
    + rewrite Hlog in Hmore. symmetry in Hmore.
      destruct (split_inside _ _ _ _ _ Hmore Hgt) as [post1 [Hlog1 _]].
      destruct (iteration_result_reported _ _ _ _ _ _ _ _ _ _ _ Hit Hlog1 Hlen)
        as [reply [calls [call [toolDef [result
              [Hreply [Hcalls [Hin [Hname [Hparse [Hget [Hexec Hmsg]]]]]]]]]]]].
      exists reply, calls, call, toolDef, result.
      rewrite Hfinal. repeat split; try assumption;
        apply in_or_app; now left.
Qed.

End Results.

(** X18.  In a run that returns, every execution in the log answered a
    tool call of a reply kept in the transcript: the call names the tool,
    its arguments parsed to the value the tool received, the tool resolved,
    and the transcript holds the tool message with the call's id, the tool's
    name and the [JSON.stringify] of the result. *)
Theorem every_tool_result_is_reported :
  forall host options fuel final stepCount log pre toolName toolArgs post,
    transcript host options fuel = Some (Return (final, stepCount), log) ->
    log = pre ++ EvExecute toolName toolArgs :: post ->
    exists reply calls call toolDef result,
      In reply final
      /\ tool_calls reply = Some calls
      /\ In call calls
      /\ call_name call = toolName
      /\ JSON_parse host (call_arguments call) = Some toolArgs
      /\ tools_get (tools options) toolName = OwnTool toolDef
      /\ execute toolDef pre toolArgs = Return result
      /\ In {| role := tool;
               content := match JSON_stringify host 0 result with
                          | Some text => Text text
                          | None => Undefined
                          end;
               tool_call_id := Some (call_id call);
               name := Some toolName;
               tool_calls := None |} final.
Proof.
  intros host options fuel final stepCount log pre toolName toolArgs post
         Hrun Hlog.
  unfold transcript in Hrun.
  destruct (loop_result_reported host options _ _ _ _ _ _ _ _ _ _ _ Hrun Hlog
              (Nat.le_0_l _))
    as [reply [calls [call [toolDef [result
          [Hreply [Hcalls [Hin [Hname [Hparse [Hget [Hexec Hmsg]]]]]]]]]]]].
  exists reply, calls, call, toolDef, result.
  repeat split; try assumption.
  unfold tool_message in Hmsg. now rewrite Hname in Hmsg.
Qed.

Lemma every_tool_result_is_reported_example :
  exists final,
    option_map fst (transcript (calls_once "search" "{}")
                               (example_options None) 10)
    = Some (Return (final, 2))
    /\ In {| role := tool; content := Text "{}";
             tool_call_id := Some "call_1"; name := Some "search";
             tool_calls := None |} final.
Proof.
  destruct (every_tool_result_is_reported
              (calls_once "search" "{}") (example_options None) 10%nat
              _ _ _
              [EvFetch (text_request (calls_once "search" "{}")
                                     (example_options None)
                                     (initial_messages (example_options None)))]
              "search" (JObj []) _ eq_refl eq_refl)
    as [reply [calls [call [toolDef [result [_ _]]]]]].
  eexists. split; [reflexivity|]. right; right; right; left; reflexivity.
Defined.
